(** * MicroPyServer [utils.py]: request parsing and response formatting

    A shallow embedding of [src/utils.py] and the properties of its
    functions.  Python values are modelled as follows:

    - a [str] is a list of Unicode code points ([list N]);
    - a [bytes] / [bytearray] is a [list byte];
    - a [dict] with string keys and values is a [gmap (list N) (list N)];
    - a raised exception is the [Raise] constructor of [result];
    - the transport object ([server]) is an instance of the [Transport]
      class: a state with the two operations [send] and [send_binary].

    The builtins the module relies on ([str.split], [int(_, 16)], the
    UTF-8 codec, [str(int)] and the [re] engine) are modelled after
    CPython. *)

From Stdlib Require Import ZArith NArith List Ascii Lia DecimalString.
From Stdlib.Strings Require Import Byte.
From Stdlib Require DecimalZ DecimalPos.
From stdpp Require Import base option list gmap strings.

Set Default Proof Using "Type".
Local Open Scope N_scope.

(** ** Python values and exceptions *)

Abbreviation pystr := (list N) (only parsing).
Abbreviation pybytes := (list byte) (only parsing).
Abbreviation pydict := (gmap (list N) (list N)) (only parsing).

(** A [str] literal: the code points of an ASCII literal. *)
Definition lit (s : string) : pystr :=
  (λ a, N_of_ascii a) <$> String.list_ascii_of_string s.

(** A [bytes] literal. *)
Definition blit (s : string) : pybytes := String.list_byte_of_string s.

Definition CR : N := 13.
Definition LF : N := 10.
Definition CRLF : pystr := [CR; LF].

Inductive exn :=
| ValueError
| KeyError
| TypeError
| AttributeError
| UnicodeEncodeError
| UnicodeDecodeError.

Inductive result (A : Type) :=
| Ok (a : A)
| Raise (e : exn).
Arguments Ok {A} a.
Arguments Raise {A} e.

#[global] Instance result_ret : MRet result := λ A a, Ok a.
#[global] Instance result_bind : MBind result := λ A B f m,
  match m with
  | Ok a => f a
  | Raise e => Raise e
  end.

#[global] Instance result_fmap : FMap result := λ A B f m,
  match m with
  | Ok a => Ok (f a)
  | Raise e => Raise e
  end.

#[global] Instance exn_eq_dec : EqDecision exn.
Proof. solve_decision. Defined.

(** [try: body except e: handler] for a single exception class. *)
Definition try_except {A} (body : result A) (e : exn) (handler : result A)
  : result A :=
  match body with
  | Ok a => Ok a
  | Raise e' => if decide (e' = e) then handler else Raise e'
  end.

(** The values that flow through the module's duck-typed functions. *)
Inductive pyval :=
| VNone
| VStr (s : pystr)
| VBytes (b : pybytes)
| VDict (d : pydict).

#[global] Instance byte_eq_dec : EqDecision byte := Byte.byte_eq_dec.

#[global] Instance pyval_eq_dec : EqDecision pyval.
Proof. solve_decision. Defined.

(** Python truthiness ([if not x]). *)
Definition truthy (v : pyval) : bool :=
  match v with
  | VNone => false
  | VStr s => negb (bool_decide (s = []))
  | VBytes b => negb (bool_decide (b = []))
  | VDict d => negb (bool_decide (d = ∅))
  end.

(** Builtin [len]. *)
Definition py_len (v : pyval) : result nat :=
  match v with
  | VNone => Raise TypeError
  | VStr s => Ok (length s)
  | VBytes b => Ok (length b)
  | VDict d => Ok (size d)
  end.

(** ** [str.split(sep)] and [bytes.split(sep)]

    Left-to-right scan for non-overlapping occurrences of a non-empty
    separator; the result always has at least one element. *)
Section split.
Context {A : Type} `{EqDecision A}.

Fixpoint starts_with (p s : list A) : bool :=
  match p, s with
  | [], _ => true
  | _ :: _, [] => false
  | a :: p', b :: s' => bool_decide (a = b) && starts_with p' s'
  end.

(** [skip] counts the characters of a separator occurrence that are
    still to be passed over. *)
Fixpoint split_go (sep : list A) (skip : nat) (s : list A)
  : list (list A) :=
  match s with
  | [] => [[]]
  | c :: s' =>
      match skip with
      | S k => split_go sep k s'
      | O =>
          if starts_with sep s
          then [] :: split_go sep (pred (length sep)) s'
          else match split_go sep 0 s' with
               | w :: ws => (c :: w) :: ws
               | [] => [[c]]
               end
      end
  end.

Definition split (sep s : list A) : list (list A) := split_go sep 0 s.

(** [s.find(sep)]: index of the first occurrence, if any. *)
Fixpoint find_sub (sep s : list A) : option nat :=
  if starts_with sep s then Some O
  else match s with
       | [] => None
       | _ :: s' => S <$> find_sub sep s'
       end.
End split.

(** [l[i]] on a Python list: [IndexError] cannot occur at the indices
    the module uses, so a default stands for it. *)
Definition item0 {A} (l : list (list A)) : list A := nth 0 l [].
Definition item1 {A} (l : list (list A)) : list A := nth 1 l [].

(** ** Query-string parameters *)

Definition AMP : N := 38.
Definition EQS : N := 61.

(** One iteration of the [for param_string in query_params_string] loop. *)
Definition parse_param (query_params : pydict) (param_string : pystr)
  : pydict :=
  let param := split [EQS] param_string in
  let key := item0 param in
  let value := if decide (length param = 1%nat) then [] else item1 param in
  <[key := value]> query_params.

Definition parse_query_string (query_string : pyval) : result pydict :=
  n ← py_len query_string;
  if decide (n = 0%nat) then Ok ∅ else
  match query_string with
  | VStr s =>
      let query_params_string := split [AMP] s in
      Ok (foldl parse_param ∅ query_params_string)
  | VBytes _ => Raise TypeError
  | _ => Raise AttributeError
  end.

(** ** The [re] engine

    A backtracking matcher with CPython's semantics for the constructs
    the module's patterns use: greedy repetition, capturing groups (a
    group under a repetition keeps its last iteration), and [^] without
    [MULTILINE].  [re.search] tries the start positions from left to
    right. *)
Inductive regex :=
| RChar (p : N → bool)
| RBol
| RSeq (r1 r2 : regex)
| RStar (r : regex)
| RGroup (n : nat) (r : regex).

Definition RPlus (r : regex) : regex := RSeq r (RStar r).

Record mstate := MState {
  pos : nat;
  rest : pystr;
  groups : gmap nat (list N)
}.

Definition advance (st : mstate) (s' : pystr) : mstate :=
  MState (S (pos st)) s' (groups st).

Definition set_group (n : nat) (start : mstate) (st : mstate) : mstate :=
  MState (pos st) (rest st)
         (<[n := take (pos st - pos start) (rest start)]> (groups st)).

(** The repetition [r*] with [fuel] further iterations allowed: greedy,
    it first tries one more iteration of [body] and falls back on the
    continuation.  An iteration has to consume at least one character,
    so the number of remaining characters is fuel enough. *)
Fixpoint star_loop (body : mstate → (mstate → option mstate) → option mstate)
    (k : mstate → option mstate) (fuel : nat) (st : mstate)
  : option mstate :=
  match fuel with
  | O => k st
  | S fuel' =>
      match body st (λ st',
              if decide (pos st < pos st')%nat
              then star_loop body k fuel' st' else None) with
      | Some m => Some m
      | None => k st
      end
  end.

Fixpoint rmatch (r : regex) (st : mstate) (k : mstate → option mstate)
  {struct r} : option mstate :=
  match r with
  | RChar p =>
      match rest st with
      | c :: s' => if p c then k (advance st s') else None
      | [] => None
      end
  | RBol => if decide (pos st = 0%nat) then k st else None
  | RSeq r1 r2 => rmatch r1 st (λ st1, rmatch r2 st1 k)
  | RStar r' => star_loop (rmatch r') k (length (rest st)) st
  | RGroup n r' => rmatch r' st (λ st', k (set_group n st st'))
  end.

Fixpoint search_from (r : regex) (p : nat) (s : pystr) : option mstate :=
  match rmatch r (MState p s ∅) Some with
  | Some m => Some m
  | None =>
      match s with
      | [] => None
      | _ :: s' => search_from r (S p) s'
      end
  end.

(** [re.search(pattern, string)]. *)
Definition re_search (r : regex) (s : pystr) : option mstate :=
  search_from r 0 s.

(** [match.group(n)]; a group that did not take part gives [None]. *)
Definition group (n : nat) (m : mstate) : pyval :=
  match groups m !! n with
  | Some s => VStr s
  | None => VNone
  end.

(** [re.search(pattern, string).group(n)]: a failed search returns
    [None], on which [.group] raises [AttributeError]. *)
Definition search_group (r : regex) (s : pystr) (n : nat) : result pyval :=
  match re_search r s with
  | Some m => Ok (group n m)
  | None => Raise AttributeError
  end.

(** *** Character classes *)

Definition is_char (c : N) : N → bool := λ x, bool_decide (x = c).
Definition in_range (lo hi : N) : N → bool := λ x, (lo <=? x) && (x <=? hi).

(** [[A-Z]] *)
Definition cls_upper : N → bool := in_range 65 90.

(** [[-a-zA-Z0-9_.]] *)
Definition cls_path : N → bool := λ x,
  is_char 45 x || in_range 97 122 x || in_range 65 90 x
  || in_range 48 57 x || is_char 95 x || is_char 46 x.

(** [\s] on a [str] pattern: the code points for which [str.isspace]
    holds. *)
Definition cls_space : N → bool := λ x,
  in_range 9 13 x || in_range 28 32 x || is_char 133 x || is_char 160 x
  || is_char 5760 x || in_range 8192 8202 x || is_char 8232 x
  || is_char 8233 x || is_char 8239 x || is_char 8287 x || is_char 12288 x.

(** [.] without [DOTALL]: anything but a line feed. *)
Definition cls_dot : N → bool := λ x, negb (bool_decide (x = LF)).

(** *** The module's patterns *)

(** The method pattern: [^], then group 1 around [[A-Z]+]. *)
Definition re_method : regex :=
  RSeq RBol (RGroup 1 (RPlus (RChar cls_upper))).

(** The path pattern: [^], [[A-Z]+], [\s+], then a starred group 1 whose
    body is a slash followed by [[-a-zA-Z0-9_.]] repeated. *)
Definition re_path : regex :=
  RSeq RBol
    (RSeq (RPlus (RChar cls_upper))
       (RSeq (RPlus (RChar cls_space))
          (RStar (RGroup 1 (RSeq (RChar (is_char 47))
                                 (RStar (RChar cls_path))))))).

(** The query pattern: a question mark, group 1 around [.+], then [\s]. *)
Definition re_query : regex :=
  RSeq (RChar (is_char 63))
    (RSeq (RGroup 1 (RPlus (RChar cls_dot))) (RChar cls_space)).

(** The body pattern: CR LF CR LF, then group 1 around [.+]. *)
Definition re_body : regex :=
  RSeq (RChar (is_char CR))
    (RSeq (RChar (is_char LF))
       (RSeq (RChar (is_char CR))
          (RSeq (RChar (is_char LF))
             (RGroup 1 (RPlus (RChar cls_dot)))))).

(** ** Request parsing *)

Definition get_request_method (request : pystr) : result pyval :=
  let lines := split CRLF request in
  search_group re_method (item0 lines) 1.

Definition get_request_path (request : pystr) : result pyval :=
  let lines := split CRLF request in
  search_group re_path (item0 lines) 1.

Definition get_request_query_string (request : pystr) : result pyval :=
  let lines := split CRLF request in
  match re_search re_query (item0 lines) with
  | None => Ok (VStr [])
  | Some m => Ok (group 1 m)
  end.

Definition get_request_query_params (request : pystr) : result pydict :=
  query_string ← get_request_query_string request;
  parse_query_string query_string.

Definition get_request_body (request : pystr) : pyval :=
  match re_search re_body request with
  | None => VDict ∅
  | Some m => group 1 m
  end.

Definition get_request_post_params (request : pystr) (expected_method : pystr)
  : result pyval :=
  request_method ← get_request_method request;
  if decide (request_method ≠ VStr expected_method) then Ok VNone
  else VDict <$> parse_query_string (get_request_body request).

(** ** The UTF-8 codec *)

Definition byte_of_N (n : N) : byte := default x00 (Byte.of_N n).

(** [str.encode] in strict mode: lone surrogates cannot be encoded. *)
Definition utf8_encode_char (c : N) : result pybytes :=
  if c <? 0x80 then Ok [byte_of_N c]
  else if c <? 0x800 then
    Ok [byte_of_N (N.lor 0xC0 (N.shiftr c 6));
        byte_of_N (N.lor 0x80 (N.land c 0x3F))]
  else if c <? 0x10000 then
    if (0xD800 <=? c) && (c <=? 0xDFFF) then Raise UnicodeEncodeError
    else
      Ok [byte_of_N (N.lor 0xE0 (N.shiftr c 12));
          byte_of_N (N.lor 0x80 (N.land (N.shiftr c 6) 0x3F));
          byte_of_N (N.lor 0x80 (N.land c 0x3F))]
  else if c <? 0x110000 then
    Ok [byte_of_N (N.lor 0xF0 (N.shiftr c 18));
        byte_of_N (N.lor 0x80 (N.land (N.shiftr c 12) 0x3F));
        byte_of_N (N.lor 0x80 (N.land (N.shiftr c 6) 0x3F));
        byte_of_N (N.lor 0x80 (N.land c 0x3F))]
  else Raise UnicodeEncodeError.

Fixpoint utf8_encode (s : pystr) : result pybytes :=
  match s with
  | [] => Ok []
  | c :: s' =>
      bs ← utf8_encode_char c;
      bs' ← utf8_encode s';
      Ok (bs ++ bs')
  end.

Definition cont_bits (b : byte) : N := N.land (Byte.to_N b) 0x3F.
Definition in_byte_range (lo hi : N) (b : byte) : bool :=
  in_range lo hi (Byte.to_N b).

(** [bytes.decode] in strict mode: overlong forms, surrogates, code
    points above U+10FFFF and truncated sequences are rejected. *)
Fixpoint utf8_decode (bs : pybytes) : result pystr :=
  match bs with
  | [] => Ok []
  | b0 :: bs1 =>
      let n0 := Byte.to_N b0 in
      if n0 <? 0x80 then (n0 ::.) <$> utf8_decode bs1
      else if in_range 0xC2 0xDF n0 then
        match bs1 with
        | b1 :: bs2 =>
            if in_byte_range 0x80 0xBF b1
            then (N.lor (N.shiftl (N.land n0 0x1F) 6) (cont_bits b1) ::.)
                   <$> utf8_decode bs2
            else Raise UnicodeDecodeError
        | _ => Raise UnicodeDecodeError
        end
      else if in_range 0xE0 0xEF n0 then
        match bs1 with
        | b1 :: b2 :: bs3 =>
            let lo := if n0 =? 0xE0 then 0xA0 else 0x80 in
            let hi := if n0 =? 0xED then 0x9F else 0xBF in
            if in_byte_range lo hi b1 && in_byte_range 0x80 0xBF b2
            then (N.lor (N.shiftl (N.land n0 0x0F) 12)
                    (N.lor (N.shiftl (cont_bits b1) 6) (cont_bits b2)) ::.)
                   <$> utf8_decode bs3
            else Raise UnicodeDecodeError
        | _ => Raise UnicodeDecodeError
        end
      else if in_range 0xF0 0xF4 n0 then
        match bs1 with
        | b1 :: b2 :: b3 :: bs4 =>
            let lo := if n0 =? 0xF0 then 0x90 else 0x80 in
            let hi := if n0 =? 0xF4 then 0x8F else 0xBF in
            if in_byte_range lo hi b1 && in_byte_range 0x80 0xBF b2
               && in_byte_range 0x80 0xBF b3
            then (N.lor (N.shiftl (N.land n0 0x07) 18)
                    (N.lor (N.shiftl (cont_bits b1) 12)
                       (N.lor (N.shiftl (cont_bits b2) 6) (cont_bits b3))) ::.)
                   <$> utf8_decode bs4
            else Raise UnicodeDecodeError
        | _ => Raise UnicodeDecodeError
        end
      else Raise UnicodeDecodeError
  end.

(** ** [int(b, 16)] on a [bytes] argument

    Leading and trailing ASCII white space, an optional sign, an optional
    [0x] prefix, then hexadecimal digits that single underscores may
    separate; anything else is a [ValueError]. *)

Definition is_py_space (c : N) : bool := in_range 9 13 c || (c =? 32).
Definition UNDERSCORE : N := 95.

Definition hex_digit (c : N) : option Z :=
  if in_range 48 57 c then Some (Z.of_N (c - 48))
  else if in_range 97 102 c then Some (Z.of_N (c - 87))
  else if in_range 65 70 c then Some (Z.of_N (c - 55))
  else None.

Fixpoint drop_spaces (s : list N) : list N :=
  match s with
  | c :: s' => if is_py_space c then drop_spaces s' else s
  | [] => []
  end.

(** The digit loop; [prev] is the last character consumed, 0 before the
    first one.  It gives the value and the unread remainder. *)
Fixpoint scan_digits (prev : N) (acc : Z) (s : list N)
  : option (Z * list N) :=
  let finish :=
    if (prev =? UNDERSCORE) || (prev =? 0) then None else Some (acc, s) in
  match s with
  | c :: s' =>
      if c =? UNDERSCORE then
        if prev =? UNDERSCORE then None else scan_digits c acc s'
      else
        match hex_digit c with
        | Some d => scan_digits c (16 * acc + d)%Z s'
        | None => finish
        end
  | [] => finish
  end.

Definition py_int16 (b : pybytes) : result Z :=
  let s := drop_spaces (Byte.to_N <$> b) in
  let '(sign, s) :=
    match s with
    | 43 :: s' => (1%Z, s')
    | 45 :: s' => ((-1)%Z, s')
    | _ => (1%Z, s)
    end in
  let s :=
    match s with
    | 48 :: x :: s' =>
        if (x =? 120) || (x =? 88) then
          match s' with
          | 95 :: s'' => s''
          | _ => s'
          end
        else s
    | _ => s
    end in
  match s with
  | 95 :: _ => Raise ValueError
  | _ =>
      match scan_digits 0 0%Z s with
      | Some (v, s') =>
          match drop_spaces s' with
          | [] => Ok (sign * v)%Z
          | _ => Raise ValueError
          end
      | None => Raise ValueError
      end
  end.

(** ** Percent-decoding *)

Definition PERCENT : byte := "%"%byte.

(** The argument of [bytearray.append]: an integer in [range(256)] is
    required. *)
Inductive append_arg :=
| AInt (z : Z)
| ABytes (b : pybytes).

Definition bytearray_append (res : pybytes) (x : append_arg)
  : result pybytes :=
  match x with
  | AInt z =>
      if decide (0 ≤ z < 256)%Z then Ok (res ++ [byte_of_N (Z.to_N z)])
      else Raise ValueError
  | ABytes _ => Raise TypeError
  end.

(** The body of the [for item in bits[1:]] loop, with its [try]. *)
Definition unquote_item (res : pybytes) (item : pybytes) : result pybytes :=
  try_except
    (v ← py_int16 (take 2 item);
     res1 ← bytearray_append res (AInt v);
     Ok (res1 ++ drop 2 item))
    KeyError
    (res1 ← bytearray_append res (ABytes [PERCENT]);
     Ok (res1 ++ item)).

Fixpoint unquote_loop (res : pybytes) (items : list pybytes)
  : result pybytes :=
  match items with
  | [] => Ok res
  | item :: items' =>
      res' ← unquote_item res item;
      unquote_loop res' items'
  end.

Definition unquote (string : pyval) : result pystr :=
  if negb (truthy string) then Ok [] else
  string ← match string with
           | VStr s => VBytes <$> utf8_encode s
           | _ => Ok string
           end;
  match string with
  | VBytes b =>
      let bits := split [PERCENT] b in
      if decide (length bits = 1%nat) then utf8_decode b
      else
        res ← unquote_loop (item0 bits) (drop 1 bits);
        utf8_decode res
  | _ => Raise AttributeError
  end.

(** ** Response formatting *)

(** HTTP response codes. *)
Definition HTTP_CODES : gmap Z (list N) :=
  list_to_map (M := gmap Z (list N)) [
    (100, lit "Continue");
    (101, lit "Switching protocols");
    (102, lit "Processing");
    (200, lit "Ok");
    (201, lit "Created");
    (202, lit "Accepted");
    (203, lit "Non authoritative information");
    (204, lit "No content");
    (205, lit "Reset content");
    (206, lit "Partial content");
    (207, lit "Multi status");
    (208, lit "Already reported");
    (226, lit "Im used");
    (300, lit "Multiple choices");
    (301, lit "Moved permanently");
    (302, lit "Found");
    (303, lit "See other");
    (304, lit "Not modified");
    (305, lit "Use proxy");
    (307, lit "Temporary redirect");
    (308, lit "Permanent redirect");
    (400, lit "Bad request");
    (401, lit "Unauthorized");
    (402, lit "Payment required");
    (403, lit "Forbidden");
    (404, lit "Not found");
    (405, lit "Method not allowed");
    (406, lit "Not acceptable");
    (407, lit "Proxy authentication required");
    (408, lit "Request timeout");
    (409, lit "Conflict");
    (410, lit "Gone");
    (411, lit "Length required");
    (412, lit "Precondition failed");
    (413, lit "Request entity too large");
    (414, lit "Request uri too long");
    (415, lit "Unsupported media type");
    (416, lit "Request range not satisfiable");
    (417, lit "Expectation failed");
    (418, lit "I am a teapot");
    (422, lit "Unprocessable entity");
    (423, lit "Locked");
    (424, lit "Failed dependency");
    (426, lit "Upgrade required");
    (428, lit "Precondition required");
    (429, lit "Too many requests");
    (431, lit "Request header fields too large");
    (500, lit "Internal server error");
    (501, lit "Not implemented");
    (502, lit "Bad gateway");
    (503, lit "Service unavailable");
    (504, lit "Gateway timeout");
    (505, lit "Http version not supported");
    (506, lit "Variant also negotiates");
    (507, lit "Insufficient storage");
    (508, lit "Loop detected");
    (510, lit "Not extended");
    (511, lit "Network authentication required")
  ]%Z.

(** [d.get(k)]: [None] for an absent key. *)
Definition dict_get (d : gmap Z (list N)) (k : Z) : pyval :=
  match d !! k with
  | Some s => VStr s
  | None => VNone
  end.

(** [str(n)] for an [int]. *)
Definition py_str_int (n : Z) : pystr :=
  lit (NilZero.string_of_int (Z.to_int n)).

(** [a + b] with a [str] on the left: the right operand has to be a
    [str] too. *)
Definition py_add_str (a : pystr) (b : pyval) : result pystr :=
  match b with
  | VStr s => Ok (a ++ s)
  | _ => Raise TypeError
  end.

(** Computations that talk to a transport of state [T]: an exception
    leaves the state as it was when it was raised. *)
Definition io (T A : Type) : Type := T → result A * T.

#[global] Instance io_ret {T} : MRet (io T) := λ A a t, (Ok a, t).
#[global] Instance io_bind {T} : MBind (io T) := λ A B f m t,
  match m t with
  | (Ok a, t') => f a t'
  | (Raise e, t') => (Raise e, t')
  end.

Definition lift_result {T A} (r : result A) : io T A := λ t, (r, t).

(** The caller-supplied transport object. *)
Class Transport (T : Type) := {
  send : pystr → io T ();
  send_binary : pybytes → io T ()
}.

Fixpoint for_each {T A} (l : list A) (body : A → io T ()) : io T () :=
  match l with
  | [] => mret ()
  | x :: l' => body x ;; for_each l' body
  end.

Section response.
Context {T : Type} `{!Transport T}.

Definition send_headers (extend_headers : option (list pystr)) : io T () :=
  match extend_headers with
  | Some headers => for_each headers (λ header, send (header ++ CRLF))
  | None => mret ()
  end.

(** The argument of the first [send] is evaluated before the call. *)
Definition status_line (http_code : Z) : result pystr :=
  line ← py_add_str (lit "HTTP/1.0 " ++ py_str_int http_code ++ lit " ")
                    (dict_get HTTP_CODES http_code);
  Ok (line ++ CRLF).

Definition send_response (response : pystr) (http_code : Z)
    (content_type : pystr) (extend_headers : option (list pystr))
  : io T () :=
  line ← lift_result (status_line http_code);
  send line ;;
  send (lit "Content-Type:" ++ content_type ++ CRLF) ;;
  send_headers extend_headers ;;
  send CRLF ;;
  send response.

Definition send_binary_response (response : pybytes) (file_size : Z)
    (http_code : Z) (content_type : pystr)
    (extend_headers : option (list pystr))
  : io T () :=
  line ← lift_result (status_line http_code);
  send line ;;
  send (lit "Content-Type:" ++ content_type ++ CRLF) ;;
  send (lit "Content-Length:" ++ py_str_int file_size ++ CRLF) ;;
  send_headers extend_headers ;;
  send CRLF ;;
  send_binary response.
End response.

(** The default arguments. *)
Definition default_http_code : Z := 200.
Definition default_content_type : pystr := lit "text/html".
Definition default_binary_content_type : pystr :=
  lit "application/octet-stream".

(** A transport that records what it is asked to write. *)
Inductive event :=
| Send (data : pystr)
| SendBinary (data : pybytes).

#[global] Instance recorder : Transport (list event) := {
  send data := λ log, (Ok (), log ++ [Send data]);
  send_binary data := λ log, (Ok (), log ++ [SendBinary data])
}.

(** ** Vocabulary of the statements *)

(** What the recording transport has seen after the extra headers. *)
Definition header_events (extend_headers : option (list pystr))
  : list event :=
  match extend_headers with
  | Some headers => (λ header, Send (header ++ CRLF)) <$> headers
  | None => []
  end.

(** The log holds a [Content-Length] line for the byte length of every
    body that went through the binary send path. *)
Definition emits_content_length_of_body (log : list event) : Prop :=
  ∀ body, SendBinary body ∈ log →
    Send (lit "Content-Length:" ++ py_str_int (Z.of_nat (length body)) ++ CRLF)
    ∈ log.

(** The key and the value that one iteration of the parameter loop
    stores for a token. *)
Definition param_key (param_string : pystr) : pystr :=
  item0 (split [EQS] param_string).

Definition param_value (param_string : pystr) : pystr :=
  let param := split [EQS] param_string in
  if decide (length param = 1%nat) then [] else item1 param.

(** The last token of a list whose key is [k]. *)
Definition last_with_key (k : pystr) (tokens : list (list N))
  : option (list N) :=
  last (filter (λ t, param_key t = k) tokens).

(** The longest prefix whose characters satisfy [p]. *)
Fixpoint take_while {A} (p : A → bool) (l : list A) : list A :=
  match l with
  | x :: l' => if p x then x :: take_while p l' else []
  | [] => []
  end.

(** The blank line that ends the header block. *)
Definition BLANK_LINE : pystr := CRLF ++ CRLF.

(** What the body pattern captures when it is tried at the start of [s]:
    the separator has to be there, followed by at least one character
    that is not a line feed. *)
Definition body_at (s : pystr) : option pystr :=
  if starts_with BLANK_LINE s then
    match take_while cls_dot (drop 4 s) with
    | [] => None
    | l => Some l
    end
  else None.

(** The capture at the leftmost position where the pattern matches. *)
Fixpoint find_body (s : pystr) : option pystr :=
  match body_at s with
  | Some l => Some l
  | None =>
      match s with
      | [] => None
      | _ :: s' => find_body s'
      end
  end.

Definition default_expected_method : pystr := lit "POST".

(** Two requests used as examples below. *)
Definition request_two_line_body : pystr :=
  lit "POST / HTTP/1.0" ++ BLANK_LINE ++ lit "a=1" ++ CRLF ++ lit "b=2".

Definition request_nothing_after_headers : pystr :=
  lit "GET / HTTP/1.0" ++ BLANK_LINE.

(** The code point of the percent sign. *)
Definition PERCENT_CHAR : N := 37.

(** The request line of the running example, without its line end. *)
Definition request_line_a_b : pystr := lit "GET /a/b?x=1 HTTP/1.0".

Definition empty_str : pystr := [].

(** ** Proof automation *)

(** A character does not occur in a closed string. *)
Ltac not_in_literal :=
  let H := fresh in
  intros H; apply list_elem_of_In in H; vm_compute in H;
  intuition discriminate.

(** Case analysis on whether the character [c] is [v], in the tests of
    the matcher and of [starts_with]. *)
Ltac case_char c v :=
  destruct (decide (c = v)) as [->|?];
  [ rewrite ?bool_decide_eq_true_2 by done
  | rewrite ?bool_decide_eq_false_2 by congruence ];
  simpl.


(** ** Vocabulary of the further properties *)

(** The string [t] is empty or starts with a character outside the
    class [p]: a run over [p] cannot go on into [t]. *)
Definition stops_at (p : N → bool) (t : pystr) : Prop :=
  ∀ c, head t = Some c → p c = false.

Definition SLASH : N := 47.

(** The text of a path with the given segments, each after a slash. *)
Definition path_of_segments (segs : list (list N)) : pystr :=
  concat ((λ seg, SLASH :: seg) <$> segs).

(** The starred group of the path pattern: one segment. *)
Definition re_segment : regex :=
  RGroup 1 (RSeq (RChar (is_char SLASH)) (RStar (RChar cls_path))).

Definition QUESTION : N := 63.

#[global] Instance result_eq_dec {A} `{EqDecision A} : EqDecision (result A).
Proof. solve_decision. Defined.

(** The byte that the two hexadecimal digits [h1 h2] stand for. *)
Definition hex_pair_value (h1 h2 : N) : option N :=
  d1 ← hex_digit h1; d2 ← hex_digit h2; Some (Z.to_N (16 * d1 + d2)).

(** A text with percent escapes: [seg0], then for every [(h1, h2, seg)]
    a percent sign, the two characters [h1 h2] and the text [seg]. *)
Definition quoted_text (seg0 : pystr) (escs : list (N * N * list N))
  : pystr :=
  seg0 ++ concat ((λ e, PERCENT_CHAR :: e.1.1 :: e.1.2 :: e.2) <$> escs).

(** The same text with every escape replaced by its byte. *)
Definition decoded_text (seg0 : pystr) (escs : list (N * N * list N))
  : pystr :=
  seg0 ++ concat ((λ e, default 0 (hex_pair_value e.1.1 e.1.2) :: e.2)
                    <$> escs).

(** An escape of two hexadecimal digits for an ASCII character, followed
    by ASCII text without a percent sign. *)
Definition ascii_escape (e : N * N * list N) : Prop :=
  (∃ v, hex_pair_value e.1.1 e.1.2 = Some v ∧ v < 128)
  ∧ Forall (λ c, c < 128) e.2 ∧ PERCENT_CHAR ∉ e.2.

(** The check that [int(_, 16)] reads a pair of hexadecimal digits as
    their value. *)
Definition hex_pair_ok (h1 h2 : N) : bool :=
  match hex_digit h1, hex_digit h2 with
  | Some d1, Some d2 =>
      bool_decide (py_int16 [byte_of_N h1; byte_of_N h2]
                   = Ok (16 * d1 + d2)%Z)
  | _, _ => true
  end.

(** The check of one entry of the status table: a code from 100 to 511
    that prints as three digits, and a non-empty reason phrase without
    carriage return or line feed. *)
Definition status_entry_ok (entry : Z * list N) : bool :=
  (100 <=? entry.1)%Z && (entry.1 <=? 511)%Z
  && (length (py_str_int entry.1) =? 3)%nat
  && negb (length entry.2 =? 0)%nat
  && forallb (λ c, negb (c =? CR) && negb (c =? LF)) entry.2.
(** * Properties *)

(** ** The response formatter *)

Lemma status_line_known http_code reason :
  HTTP_CODES !! http_code = Some reason →
  status_line http_code
  = Ok (lit "HTTP/1.0 " ++ py_str_int http_code ++ lit " " ++ reason ++ CRLF).
Proof.
  intros Hc. unfold status_line, dict_get. rewrite Hc. simpl.
  by rewrite <- !app_assoc.
Qed.

Lemma status_line_unknown http_code :
  HTTP_CODES !! http_code = None → status_line http_code = Raise TypeError.
Proof. intros Hc. unfold status_line, dict_get. by rewrite Hc. Qed.

Lemma send_headers_recorder extend_headers (log : list event) :
  send_headers extend_headers log
  = (Ok (), log ++ header_events extend_headers).
Proof.
  destruct extend_headers as [headers|]; simpl.
  - revert log. induction headers as [|h headers IH]; intros log; simpl.
    + by rewrite app_nil_r.
    + unfold mbind, io_bind. simpl. rewrite IH. by rewrite <- app_assoc.
  - unfold mret, io_ret. by rewrite app_nil_r.
Qed.

Lemma send_response_recorder response http_code reason content_type
    extend_headers (log : list event) :
  HTTP_CODES !! http_code = Some reason →
  send_response response http_code content_type extend_headers log
  = (Ok (),
     log ++ [Send (lit "HTTP/1.0 " ++ py_str_int http_code ++ lit " "
                     ++ reason ++ CRLF);
             Send (lit "Content-Type:" ++ content_type ++ CRLF)]
         ++ header_events extend_headers
         ++ [Send CRLF; Send response]).
Proof.
  intros Hc. unfold send_response. rewrite (status_line_known _ _ Hc).
  unfold mbind, io_bind, lift_result. simpl.
  rewrite send_headers_recorder. simpl.
  by rewrite <- !app_assoc.
Qed.

Lemma send_binary_response_recorder response file_size http_code reason
    content_type extend_headers (log : list event) :
  HTTP_CODES !! http_code = Some reason →
  send_binary_response response file_size http_code content_type
    extend_headers log
  = (Ok (),
     log ++ [Send (lit "HTTP/1.0 " ++ py_str_int http_code ++ lit " "
                     ++ reason ++ CRLF);
             Send (lit "Content-Type:" ++ content_type ++ CRLF);
             Send (lit "Content-Length:" ++ py_str_int file_size ++ CRLF)]
         ++ header_events extend_headers
         ++ [Send CRLF; SendBinary response]).
Proof.
  intros Hc. unfold send_binary_response. rewrite (status_line_known _ _ Hc).
  unfold mbind, io_bind, lift_result. simpl.
  rewrite send_headers_recorder. simpl.
  by rewrite <- !app_assoc.
Qed.

(** C6: [send_response(transport, "hi", 404)] with the default content
    type and no extra headers writes exactly four pieces, in this order:
    the status line [HTTP/1.0 404 Not found], the [Content-Type:text/html]
    line, the blank line and the body [hi]; nothing else is written. *)
Theorem send_response_404_hi (log : list event) :
  send_response (lit "hi") 404 default_content_type None log
  = (Ok (),
     log ++ [Send (lit "HTTP/1.0 404 Not found" ++ CRLF);
             Send (lit "Content-Type:text/html" ++ CRLF);
             Send CRLF;
             Send (lit "hi")]).
Proof.
  rewrite (send_response_recorder _ 404 (lit "Not found")) by reflexivity.
  reflexivity.
Qed.

(** C10: for a status code that is not a key of [HTTP_CODES],
    [send_response] raises [TypeError] while it builds the status line,
    before any operation of the transport is invoked: whatever the
    transport, its state is left unchanged. *)
Theorem send_response_unknown_code {T : Type} `{!Transport T}
    response http_code content_type extend_headers (t : T) :
  HTTP_CODES !! http_code = None →
  send_response response http_code content_type extend_headers t
  = (Raise TypeError, t).
Proof.
  intros Hc. unfold send_response. rewrite (status_line_unknown _ Hc).
  reflexivity.
Qed.

Lemma send_response_unknown_code_witness :
  HTTP_CODES !! 299%Z = None
  ∧ send_response (lit "hi") 299 default_content_type None [Send CRLF]
    = (Raise TypeError, [Send CRLF]).
Proof.
  split; [reflexivity|].
  apply (send_response_unknown_code (T := list event)). reflexivity.
Defined.
Lemma lit_inj s1 s2 : lit s1 = lit s2 → s1 = s2.
Proof.
  unfold lit. intros Heq.
  rewrite <- (String.string_of_list_ascii_of_string s1), <- (String.string_of_list_ascii_of_string s2).
  f_equal. revert Heq. generalize (String.list_ascii_of_string s1) (String.list_ascii_of_string s2).
  induction l as [|a l IH]; intros [|b l']; simpl; try done.
  intros [= Hab Hl]. f_equal; [|by apply IH].
  by rewrite <- (ascii_N_embedding a), <- (ascii_N_embedding b), Hab.
Qed.

Lemma py_str_int_inj z1 z2 : py_str_int z1 = py_str_int z2 → z1 = z2.
Proof.
  unfold py_str_int. intros Heq%lit_inj.
  apply DecimalZ.to_int_inj.
  assert (Hn : ∀ z, Z.to_int z ≠ Decimal.Pos Decimal.Nil ∧ Z.to_int z ≠ Decimal.Neg Decimal.Nil).
  { intros [|p|p]; simpl; split; try done; intros [= Hp];
      by apply DecimalPos.Unsigned.to_uint_nonnil in Hp. }
  assert (Some (Z.to_int z1) = Some (Z.to_int z2)) as [= ->]; [|done].
  rewrite <- (NilZero.isi (Z.to_int z1)), <- (NilZero.isi (Z.to_int z2)) by apply Hn.
  by rewrite Heq.
Qed.

(** C5 (as stated): a call whose [file_size] is not the length of the
    body writes a [Content-Length] that differs from the number of bytes
    handed to the binary send path. *)
Lemma send_binary_response_length_mismatch :
  ¬ emits_content_length_of_body
      (send_binary_response (blit "abc") 5 default_http_code
         default_binary_content_type None []).2.
Proof.
  rewrite (send_binary_response_recorder _ _ 200 (lit "Ok")) by reflexivity.
  intros Hclaim. specialize (Hclaim (blit "abc")).
  simpl in Hclaim.
  assert (Hin : SendBinary (blit "abc") ∈
    [Send (lit "HTTP/1.0 " ++ py_str_int default_http_code ++ lit " " ++ lit "Ok" ++ CRLF);
     Send (lit "Content-Type:" ++ default_binary_content_type ++ CRLF);
     Send (lit "Content-Length:" ++ py_str_int 5 ++ CRLF);
     Send CRLF; SendBinary (blit "abc")]).
  { rewrite !elem_of_cons. auto 10. }
  apply Hclaim in Hin.
  rewrite !elem_of_cons, elem_of_nil in Hin.
  destruct Hin as [H|[H|[H|[H|[H|[]]]]]]; vm_compute in H; discriminate H.
Qed.

(** C5 (amended): with a status code of the table, the recording
    transport sees the status line, the content type, a [Content-Length]
    line that renders the [file_size] argument, the extra headers, the
    blank line and then the body on the binary path, unchanged.  The
    [Content-Length] line is the one of the body's byte length exactly
    when the caller passes that length as [file_size]. *)
Theorem send_binary_response_content_length response file_size http_code
    reason content_type extend_headers (log : list event) :
  HTTP_CODES !! http_code = Some reason →
  send_binary_response response file_size http_code content_type
    extend_headers log
  = (Ok (),
     log ++ [Send (lit "HTTP/1.0 " ++ py_str_int http_code ++ lit " "
                     ++ reason ++ CRLF);
             Send (lit "Content-Type:" ++ content_type ++ CRLF);
             Send (lit "Content-Length:" ++ py_str_int file_size ++ CRLF)]
         ++ header_events extend_headers
         ++ [Send CRLF; SendBinary response])
  ∧ (lit "Content-Length:" ++ py_str_int file_size ++ CRLF
     = lit "Content-Length:" ++ py_str_int (Z.of_nat (length response))
         ++ CRLF
     ↔ file_size = Z.of_nat (length response)).
Proof.
  intros Hc. split; [by apply send_binary_response_recorder|].
  split; [|by intros ->].
  intros Heq. apply app_inv_head, app_inv_tail in Heq.
  by apply py_str_int_inj.
Qed.

Lemma send_binary_response_content_length_witness :
  HTTP_CODES !! 200%Z = Some (lit "Ok")
  ∧ (send_binary_response (blit "abc") 3 200 default_binary_content_type
       (Some [lit "X-A: 1"]) []).2
    = [Send (lit "HTTP/1.0 200 Ok" ++ CRLF);
       Send (lit "Content-Type:application/octet-stream" ++ CRLF);
       Send (lit "Content-Length:3" ++ CRLF);
       Send (lit "X-A: 1" ++ CRLF);
       Send CRLF;
       SendBinary (blit "abc")].
Proof.
  split; [reflexivity|].
  destruct (send_binary_response_content_length (blit "abc") 3 200
              (lit "Ok") default_binary_content_type (Some [lit "X-A: 1"]) []
              eq_refl) as [-> _].
  reflexivity.
Defined.

(** ** Splitting on a one-character separator *)

Section split_single.
Context {A : Type} `{EqDecision A}.
Implicit Types (c : A) (s a b : list A).

Lemma split_go_nonempty (sep : list A) skip s : split_go sep skip s ≠ [].
Proof.
  revert skip. induction s as [|x s IH]; intros skip; simpl; [done|].
  destruct skip; [|apply IH].
  destruct (starts_with sep (x :: s)); [done|].
  by destruct (split_go sep 0 s).
Qed.

Lemma split_single_cons_eq c s : split [c] (c :: s) = [] :: split [c] s.
Proof. unfold split. simpl. by rewrite bool_decide_eq_true_2. Qed.

Lemma split_single_cons_ne c x s :
  x ≠ c →
  split [c] (x :: s)
  = (x :: item0 (split [c] s)) :: drop 1 (split [c] s).
Proof.
  intros Hne. unfold split. simpl.
  rewrite bool_decide_eq_false_2 by congruence. simpl.
  pose proof (split_go_nonempty [c] 0 s) as Hs.
  by destruct (split_go [c] 0 s).
Qed.

Lemma split_single_no_sep c s : c ∉ s → split [c] s = [s].
Proof.
  induction s as [|x s IH]; [done|].
  rewrite not_elem_of_cons. intros [Hne Hs].
  rewrite split_single_cons_ne by done. by rewrite IH.
Qed.

Lemma split_single_app c a b :
  c ∉ a → split [c] (a ++ c :: b) = a :: split [c] b.
Proof.
  induction a as [|x a IH]; simpl.
  - intros _. apply split_single_cons_eq.
  - rewrite not_elem_of_cons. intros [Hne Ha].
    rewrite split_single_cons_ne by done. by rewrite IH.
Qed.

Lemma split_single_snoc c a b :
  c ∉ b → split [c] (a ++ c :: b) = split [c] a ++ [b].
Proof.
  intros Hb. induction a as [|x a IH]; simpl.
  - rewrite split_single_cons_eq. by rewrite split_single_no_sep.
  - destruct (decide (x = c)) as [->|Hne].
    + rewrite !split_single_cons_eq. simpl. by rewrite IH.
    + rewrite !split_single_cons_ne by done. rewrite IH.
      pose proof (split_go_nonempty [c] 0 a) as Hs. fold (split [c] a) in Hs.
      by destruct (split [c] a).
Qed.
End split_single.

(** ** Query-string parameters *)

Lemma parse_param_insert (m : gmap (list N) (list N)) (t : list N) :
  parse_param m t = <[param_key t := param_value t]> m.
Proof. reflexivity. Qed.

Lemma foldl_parse_param_lookup (tokens : list (list N))
    (m : gmap (list N) (list N)) (k : list N) :
  foldl parse_param m tokens !! k
  = match last_with_key k tokens with
    | Some t => Some (param_value t)
    | None => m !! k
    end.
Proof.
  unfold last_with_key.
  induction tokens as [|t tokens IH] using rev_ind; [done|].
  rewrite foldl_app. simpl. rewrite parse_param_insert, filter_app.
  rewrite lookup_insert. rewrite filter_cons, filter_nil.
  destruct (decide (param_key t = k)) as [Hk|Hk]; simpl.
  - by rewrite last_snoc.
  - by rewrite app_nil_r.
Qed.

Lemma parse_query_string_nonempty (s : list N) :
  s ≠ [] →
  parse_query_string (VStr s) = Ok (foldl parse_param ∅ (split [AMP] s)).
Proof.
  intros Hs. unfold parse_query_string. simpl.
  destruct s; [done|]. reflexivity.
Qed.

Lemma param_no_eq (t : list N) : EQS ∉ t → param_key t = t ∧ param_value t = [].
Proof.
  intros Ht. unfold param_key, param_value.
  by rewrite split_single_no_sep.
Qed.

Lemma param_key_value (k v tail : list N) :
  EQS ∉ k → EQS ∉ v → (tail = [] ∨ ∃ r, tail = EQS :: r) →
  param_key (k ++ [EQS] ++ v ++ tail) = k
  ∧ param_value (k ++ [EQS] ++ v ++ tail) = v.
Proof.
  intros Hk Hv Htail. unfold param_key, param_value. simpl.
  rewrite split_single_app by done.
  assert (∃ l, split [EQS] (v ++ tail) = v :: l) as [l ->].
  { destruct Htail as [->|[r ->]].
    - rewrite app_nil_r, split_single_no_sep by done. by eexists.
    - rewrite split_single_app by done. by eexists. }
  done.
Qed.

(** C7: the empty query string gives the empty mapping; [a=1&b=2] gives
    the two bindings; a token without an equals sign is bound to the
    empty string; and for every non-empty query string and every key,
    the mapping holds the value of the last token with that key (so the
    later of [a=1&a=2] wins) and nothing for a key that no token has. *)
Theorem parse_query_string_examples_last_wins :
  parse_query_string (VStr (empty_str)) = Ok ∅
  ∧ parse_query_string (VStr (lit "a=1&b=2"))
    = Ok {[ lit "a" := lit "1"; lit "b" := lit "2" ]}
  ∧ parse_query_string (VStr (lit "flag")) = Ok {[ lit "flag" := empty_str ]}
  ∧ parse_query_string (VStr (lit "a=1&a=2")) = Ok {[ lit "a" := lit "2" ]}
  ∧ (∀ t : list N, EQS ∉ t → param_key t = t ∧ param_value t = empty_str)
  ∧ (∀ (s k : list N), s ≠ [] →
       ∃ m : gmap (list N) (list N),
         parse_query_string (VStr s) = Ok m
         ∧ m !! k = param_value <$> last_with_key k (split [AMP] s)).
Proof.
  split; [reflexivity|].
  split; [by vm_compute|].
  split; [by vm_compute|].
  split; [by vm_compute|].
  split; [apply param_no_eq|].
  intros s k Hs. eexists. split; [by apply parse_query_string_nonempty|].
  rewrite foldl_parse_param_lookup.
  by destruct (last_with_key k (split [AMP] s)).
Qed.

Lemma parse_query_string_examples_last_wins_witness :
  ∃ m : gmap (list N) (list N),
    parse_query_string (VStr (lit "a=1&b=2&a=3&flag")) = Ok m
    ∧ m !! lit "a" = Some (lit "3")
    ∧ m !! lit "flag" = Some (empty_str)
    ∧ m !! lit "c" = None.
Proof.
  destruct parse_query_string_examples_last_wins as (_ & _ & _ & _ & _ & H).
  destruct (H (lit "a=1&b=2&a=3&flag") (lit "a") ltac:(discriminate))
    as (m & Hm & Ha).
  destruct (H (lit "a=1&b=2&a=3&flag") (lit "flag") ltac:(discriminate))
    as (m1 & Hm1 & Hflag).
  destruct (H (lit "a=1&b=2&a=3&flag") (lit "c") ltac:(discriminate))
    as (m2 & Hm2 & Hc).
  rewrite Hm in Hm1, Hm2. injection Hm1 as <-. injection Hm2 as <-.
  exists m. split; [exact Hm|].
  split; [exact Ha|]. split; [exact Hflag|exact Hc].
Defined.

(** C4 (the code at the failing input): for the token [a=b=c] the
    parameter loop splits on both equals signs and reads the second
    piece, so the value bound to [a] is [b]; the rest of the value,
    [=c], is lost. *)
Lemma parse_query_string_second_eq_cuts_value :
  ∃ m : gmap (list N) (list N),
    parse_query_string (VStr (lit "a=b=c")) = Ok m
    ∧ m !! lit "a" = Some (lit "b")
    ∧ m !! lit "a" ≠ Some (lit "b=c").
Proof.
  exists {[ lit "a" := lit "b" ]}.
  split; [by vm_compute|].
  rewrite lookup_singleton_eq. split; [done|]. intros [=].
Qed.

(** X7: the general shape of that loss: for the last token of a query
    string, of the form [key=value] possibly followed by a further
    equals sign and more text, the mapping binds [key] to the text
    between the first equals sign and the second one (or the end of the
    token). *)
Lemma parse_query_string_value_up_to_second_eq (pre k v tail : list N) :
  (pre = [] ∨ ∃ q, pre = q ++ [AMP]) →
  (tail = [] ∨ ∃ r, tail = EQS :: r) →
  EQS ∉ k → EQS ∉ v → AMP ∉ k ++ [EQS] ++ v ++ tail →
  ∃ m : gmap (list N) (list N),
    parse_query_string (VStr (pre ++ k ++ [EQS] ++ v ++ tail)) = Ok m
    ∧ m !! k = Some v.
Proof.
  intros Hpre Htail Hk Hv Hamp.
  destruct (param_key_value k v tail Hk Hv Htail) as [Hkey Hval].
  eexists. split.
  { apply parse_query_string_nonempty. by destruct pre, k. }
  rewrite foldl_parse_param_lookup.
  assert (∃ l, split [AMP] (pre ++ k ++ [EQS] ++ v ++ tail)
               = l ++ [k ++ [EQS] ++ v ++ tail]) as [l ->].
  { destruct Hpre as [->|[q ->]].
    - exists []. by rewrite split_single_no_sep.
    - rewrite <- app_assoc. simpl. rewrite split_single_snoc by done.
      by eexists. }
  unfold last_with_key. rewrite filter_app, filter_cons, filter_nil.
  rewrite decide_True by done. rewrite last_snoc. by rewrite Hval.
Qed.

Lemma parse_query_string_value_up_to_second_eq_witness :
  ∃ m : gmap (list N) (list N),
    parse_query_string (VStr (lit "x=0&a=b=c")) = Ok m
    ∧ m !! lit "a" = Some (lit "b").
Proof.
  apply (parse_query_string_value_up_to_second_eq
           (lit "x=0&") (lit "a") (lit "b") (lit "=c")).
  - right. by exists (lit "x=0").
  - right. by exists (lit "c").
  - not_in_literal.
  - not_in_literal.
  - not_in_literal.
Defined.

(** ** The matcher on the body pattern *)

Lemma take_take_while {A} (p : A → bool) (l : list A) :
  take (length (take_while p l)) l = take_while p l.
Proof.
  induction l as [|x l IH]; simpl; [done|].
  destruct (p x); simpl; [by rewrite IH|done].
Qed.

Lemma take_while_all {A} (p : A → bool) (l : list A) :
  Forall (λ x, p x = true) l → take_while p l = l.
Proof.
  induction 1 as [|x l Hx _ IH]; simpl; [done|]. by rewrite Hx, IH.
Qed.

(** A greedy run over a character class, followed by a continuation
    that accepts at the end of the run, stops at the end of the run. *)
Lemma star_loop_class body p k fuel st :
  (∀ st k, body st k = rmatch (RChar p) st k) →
  (length (rest st) ≤ fuel)%nat →
  let n := length (take_while p (rest st)) in
  is_Some (k (MState (pos st + n) (drop n (rest st)) (groups st))) →
  star_loop body k fuel st
  = k (MState (pos st + n) (drop n (rest st)) (groups st)).
Proof.
  intros Hbody. revert st.
  induction fuel as [|fuel IH]; intros [ps s g]; simpl.
  - destruct s; simpl; [|lia]. intros _ _. by rewrite Nat.add_0_r.
  - intros Hlen. rewrite Hbody. destruct s as [|c s]; simpl.
    { intros _. by rewrite Nat.add_0_r. }
    destruct (p c) eqn:Hpc; simpl.
    + intros Hk. unfold advance. simpl in *.
      rewrite decide_True by lia.
      rewrite <- Nat.add_succ_comm in *.
      rewrite (IH (MState (S ps) s g)); simpl in *; [|lia|done].
      by destruct Hk as [m ->].
    + intros _. by rewrite Nat.add_0_r.
Qed.

Lemma rmatch_re_body ps s :
  group 1 <$> rmatch re_body (MState ps s ∅) Some = VStr <$> body_at s.
Proof.
  unfold re_body, body_at, BLANK_LINE, CRLF, is_char. simpl.
  destruct s as [|c1 s]; simpl; [done|]. case_char c1 CR; [|done].
  destruct s as [|c2 s]; simpl; [done|]. case_char c2 LF; [|done].
  destruct s as [|c3 s]; simpl; [done|]. case_char c3 CR; [|done].
  destruct s as [|c4 s]; simpl; [done|]. case_char c4 LF; [|done].
  destruct s as [|c s]; simpl; [done|].
  destruct (cls_dot c) eqn:Hc; simpl; [|done].
  unfold advance; simpl.
  rewrite (star_loop_class _ cls_dot); simpl; [|done|lia|done].
  unfold group, set_group; simpl. rewrite lookup_insert_eq.
  do 2 f_equal.
  replace (S (ps + length (take_while cls_dot s)) - ps)%nat
    with (S (length (take_while cls_dot s))) by lia.
  simpl. by rewrite take_take_while.
Qed.

Lemma search_from_unfold r p s :
  search_from r p s
  = match rmatch r (MState p s ∅) Some with
    | Some m => Some m
    | None =>
        match s with
        | [] => None
        | _ :: s' => search_from r (S p) s'
        end
    end.
Proof. by destruct s. Qed.

Lemma find_body_unfold s :
  find_body s
  = match body_at s with
    | Some l => Some l
    | None =>
        match s with
        | [] => None
        | _ :: s' => find_body s'
        end
    end.
Proof. by destruct s. Qed.

Lemma search_from_re_body ps s :
  group 1 <$> search_from re_body ps s = VStr <$> find_body s.
Proof.
  revert ps. induction s as [|c s IH]; intros ps;
    rewrite search_from_unfold, find_body_unfold;
    pose proof (rmatch_re_body ps) as Hm.
  - specialize (Hm []).
    destruct (rmatch re_body (MState ps [] ∅) Some);
      destruct (body_at []); simpl in *; congruence.
  - specialize (Hm (c :: s)).
    destruct (rmatch re_body (MState ps (c :: s) ∅) Some);
      destruct (body_at (c :: s)); simpl in Hm |- *;
      first [congruence | apply IH].
Qed.

(** The body accessor in terms of the leftmost capture. *)
Lemma get_request_body_find_body request :
  get_request_body request
  = match find_body request with
    | Some l => VStr l
    | None => VDict ∅
    end.
Proof.
  unfold get_request_body, re_search.
  pose proof (search_from_re_body 0 request) as Hs.
  destruct (search_from re_body 0 request) as [m|];
    destruct (find_body request) as [l|]; simpl in *; congruence.
Qed.

(** ** The body accessor *)

Section starts_with.
Context {A : Type} `{EqDecision A}.

Lemma starts_with_app (p t : list A) : starts_with p (p ++ t) = true.
Proof.
  induction p as [|a p IH]; simpl; [done|].
  by rewrite bool_decide_eq_true_2, IH.
Qed.

Lemma starts_with_inv (p s : list A) :
  starts_with p s = true → s = p ++ drop (length p) s.
Proof.
  revert s. induction p as [|a p IH]; intros [|b s]; simpl; try done.
  rewrite andb_true_iff, bool_decide_eq_true. intros [-> Hs].
  f_equal. by apply IH.
Qed.

Lemma find_sub_unfold (sep s : list A) :
  find_sub sep s
  = if starts_with sep s then Some O
    else match s with
         | [] => None
         | _ :: s' => S <$> find_sub sep s'
         end.
Proof. by destruct s. Qed.
End starts_with.

Lemma find_body_nonempty s l : find_body s = Some l → l ≠ [].
Proof.
  induction s as [|c s IH]; rewrite find_body_unfold; unfold body_at.
  - by vm_compute.
  - destruct (starts_with BLANK_LINE (c :: s)); [|exact IH].
    destruct (take_while cls_dot (drop 4 (c :: s))); [exact IH|].
    by intros [= <-].
Qed.

Lemma find_body_no_separator s :
  find_sub BLANK_LINE s = None → find_body s = None.
Proof.
  induction s as [|c s IH]; rewrite find_sub_unfold, find_body_unfold;
    unfold body_at.
  - by destruct (starts_with BLANK_LINE []).
  - destruct (starts_with BLANK_LINE (c :: s)); [done|].
    destruct (find_sub BLANK_LINE s); [done|]. intros _. by apply IH.
Qed.

Lemma find_body_nothing_follows s i :
  find_sub BLANK_LINE s = Some i → drop (i + 4) s = [] →
  find_body s = None.
Proof.
  revert i. induction s as [|c s IH]; intros i;
    rewrite find_sub_unfold, find_body_unfold; unfold body_at.
  - by destruct (starts_with BLANK_LINE []).
  - destruct (starts_with BLANK_LINE (c :: s)) eqn:Hsw.
    + intros [= <-] Hdrop. apply starts_with_inv in Hsw.
      simpl in Hsw, Hdrop. rewrite Hdrop in Hsw.
      by injection Hsw as -> ->.
    + destruct (find_sub BLANK_LINE s) as [j|]; [|done].
      intros [= <-] Hdrop. by apply (IH j).
Qed.

Lemma find_body_single_line s i :
  find_sub BLANK_LINE s = Some i →
  drop (i + 4) s ≠ [] → LF ∉ drop (i + 4) s →
  find_body s = Some (drop (i + 4) s).
Proof.
  revert i. induction s as [|c s IH]; intros i;
    rewrite find_sub_unfold, find_body_unfold; unfold body_at.
  - change (starts_with BLANK_LINE []) with false. by intros [=].
  - destruct (starts_with BLANK_LINE (c :: s)) eqn:Hsw.
    + intros [= <-] Hne Hlf. change (0 + 4)%nat with 4%nat in *.
      rewrite take_while_all.
      * by destruct (drop 4 (c :: s)).
      * apply Forall_forall. intros x Hx. unfold cls_dot.
        rewrite negb_true_iff, bool_decide_eq_false. by intros ->.
    + destruct (find_sub BLANK_LINE s) as [j|]; [|done].
      intros [= <-] Hne Hlf. by apply (IH j).
Qed.

(** X9: where the slip of the body pattern shows: the dot of the pattern
    does not match a line feed, so of a body of several lines only the
    text before the first line feed is returned. *)
Lemma get_request_body_first_line s i l tail :
  find_sub BLANK_LINE s = Some i →
  drop (i + 4) s = l ++ LF :: tail → l ≠ [] → LF ∉ l →
  get_request_body s = VStr l.
Proof.
  rewrite get_request_body_find_body.
  revert i. induction s as [|c s IH]; intros i;
    rewrite find_sub_unfold, find_body_unfold; unfold body_at.
  - change (starts_with BLANK_LINE []) with false. by intros [=].
  - destruct (starts_with BLANK_LINE (c :: s)) eqn:Hsw.
    + intros [= <-] Hdrop Hne Hlf. change (0 + 4)%nat with 4%nat in *.
      rewrite Hdrop.
      assert (take_while cls_dot (l ++ LF :: tail) = l) as ->.
      { clear -Hlf. induction l as [|x l IHl]; [done|].
        apply not_elem_of_cons in Hlf as [Hx Hl]. simpl.
        unfold cls_dot at 1. rewrite bool_decide_eq_false_2 by done.
        simpl. by rewrite IHl. }
      by destruct l.
    + destruct (find_sub BLANK_LINE s) as [j|]; [|done].
      intros [= <-] Hdrop Hne Hlf. by apply (IH j).
Qed.

(** C3 (as stated): a body of two lines is cut in its first line, and
    when nothing follows the separator the result is the empty mapping,
    not the empty string. *)
Lemma get_request_body_not_all_after_separator :
  (find_sub BLANK_LINE request_two_line_body = Some 15%nat
   ∧ drop 19 request_two_line_body = lit "a=1" ++ CRLF ++ lit "b=2"
   ∧ get_request_body request_two_line_body = VStr (lit "a=1" ++ [CR])
   ∧ get_request_body request_two_line_body
     ≠ VStr (drop 19 request_two_line_body))
  ∧ (find_sub BLANK_LINE request_nothing_after_headers = Some 14%nat
     ∧ drop 18 request_nothing_after_headers = empty_str
     ∧ get_request_body request_nothing_after_headers = VDict ∅
     ∧ get_request_body request_nothing_after_headers
       ≠ VStr (drop 18 request_nothing_after_headers)).
Proof.
  repeat split; by vm_compute.
Qed.

(** C3 (amended): a buffer without the blank-line separator gives the
    empty mapping, and so does a buffer that ends with its first
    separator; when the text after the first separator is not empty and
    holds no line feed, the result is that text, up to the end of the
    buffer. *)
Theorem get_request_body_spec (request : list N) :
  (find_sub BLANK_LINE request = None → get_request_body request = VDict ∅)
  ∧ (∀ i, find_sub BLANK_LINE request = Some i →
          drop (i + 4) request = [] →
          get_request_body request = VDict ∅)
  ∧ (∀ i, find_sub BLANK_LINE request = Some i →
          drop (i + 4) request ≠ [] → LF ∉ drop (i + 4) request →
          get_request_body request = VStr (drop (i + 4) request)).
Proof.
  rewrite get_request_body_find_body. split; [|split].
  - intros H. by rewrite find_body_no_separator.
  - intros i Hi Hd. by rewrite (find_body_nothing_follows _ i).
  - intros i Hi Hd Hlf. by rewrite (find_body_single_line _ i).
Qed.

Lemma get_request_body_spec_witness :
  get_request_body (lit "GET / HTTP/1.0" ++ CRLF ++ lit "Host: a") = VDict ∅
  ∧ get_request_body (lit "GET / HTTP/1.0" ++ BLANK_LINE) = VDict ∅
  ∧ get_request_body (lit "POST / HTTP/1.0" ++ BLANK_LINE ++ lit "a=1&b=2")
    = VStr (lit "a=1&b=2").
Proof.
  split; [|split].
  - apply (get_request_body_spec _). reflexivity.
  - apply (proj1 (proj2 (get_request_body_spec _)) 14%nat); reflexivity.
  - apply (proj2 (proj2 (get_request_body_spec
             (lit "POST / HTTP/1.0" ++ BLANK_LINE ++ lit "a=1&b=2")))
             15%nat).
    + reflexivity.
    + discriminate.
    + not_in_literal.
Defined.

(** ** POST parameters *)

(** The body accessor gives a non-empty string or the empty mapping, on
    both of which the parameter parser succeeds. *)
Lemma parse_query_string_body request :
  ∃ d, parse_query_string (get_request_body request) = Ok d.
Proof.
  rewrite get_request_body_find_body.
  destruct (find_body request) as [l|] eqn:Hl.
  - apply find_body_nonempty in Hl.
    rewrite parse_query_string_nonempty by done. by eexists.
  - by exists ∅.
Qed.

(** The part of C8 that holds: [get_request_post_params] returns [None]
    exactly when the request has a method and that method is not
    [expected_method]; with the expected method it returns a mapping. *)
Lemma get_request_post_params_none_iff (request expected_method : list N) :
  (get_request_post_params request expected_method = Ok VNone
   ↔ ∃ m, get_request_method request = Ok m ∧ m ≠ VStr expected_method)
  ∧ (get_request_method request = Ok (VStr expected_method) →
     ∃ d, get_request_post_params request expected_method = Ok (VDict d)).
Proof.
  unfold get_request_post_params.
  destruct (parse_query_string_body request) as [d Hd].
  destruct (get_request_method request) as [m|e]; simpl.
  - destruct (decide (m ≠ VStr expected_method)) as [Hne|Heq].
    + split; [split; [by exists m|done]|]. by intros [= ->].
    + rewrite Hd. simpl. split.
      * split; [done|]. by intros (m' & [= <-] & Hm').
      * intros _. by exists d.
  - split; [|done]. split; [done|]. by intros (m & [=] & _).
Qed.

(** C8 (the code at the failing input): the request
    [POST / HTTP/1.0], blank line, [a=1], line end, [b=2] has the
    expected method [POST], and the text after its first separator, at
    index 15, is the two lines [a=1] and [b=2].  Parsed as a query
    string that text binds [a] to a value that runs over the line end,
    but [get_request_post_params] parses only what the body pattern
    captured, the text before the first line feed, and binds [a] to [1]
    followed by a carriage return: it does not return the body
    parsed. *)
Theorem get_request_post_params_two_line_body :
  get_request_method request_two_line_body
  = Ok (VStr default_expected_method)
  ∧ find_sub BLANK_LINE request_two_line_body = Some 15%nat
  ∧ drop 19 request_two_line_body = lit "a=1" ++ CRLF ++ lit "b=2"
  ∧ parse_query_string (VStr (drop 19 request_two_line_body))
    = Ok {[ lit "a" := lit "1" ++ CRLF ++ lit "b" ]}
  ∧ get_request_post_params request_two_line_body default_expected_method
    = Ok (VDict {[ lit "a" := lit "1" ++ [CR] ]})
  ∧ get_request_post_params request_two_line_body default_expected_method
    ≠ VDict <$> parse_query_string (VStr (drop 19 request_two_line_body)).
Proof.
  assert (Hp : parse_query_string (VStr (drop 19 request_two_line_body))
               = Ok {[ lit "a" := lit "1" ++ CRLF ++ lit "b" ]})
    by by vm_compute.
  assert (Hg : get_request_post_params request_two_line_body
                 default_expected_method
               = Ok (VDict {[ lit "a" := lit "1" ++ [CR] ]}))
    by by vm_compute.
  split; [by vm_compute|]. split; [by vm_compute|].
  split; [by vm_compute|]. split; [exact Hp|]. split; [exact Hg|].
  rewrite Hg, Hp. simpl. intros Heq. vm_compute in Heq. discriminate Heq.
Qed.

(** ** Percent-decoding *)

Lemma to_N_byte_of_N c : c < 256 → Byte.to_N (byte_of_N c) = c.
Proof.
  intros Hc. unfold byte_of_N.
  destruct (Byte.of_N c) as [b|] eqn:Hb; simpl.
  - by apply Byte.to_of_N.
  - apply Byte.of_N_None_iff in Hb. lia.
Qed.

Lemma utf8_encode_ascii s :
  Forall (λ c, c < 128) s → utf8_encode s = Ok (byte_of_N <$> s).
Proof.
  induction 1 as [|c s Hc _ IH]; simpl; [done|].
  unfold utf8_encode_char. rewrite (proj2 (N.ltb_lt _ _)) by done.
  simpl. by rewrite IH.
Qed.

Lemma utf8_decode_ascii s :
  Forall (λ c, c < 128) s → utf8_decode (byte_of_N <$> s) = Ok s.
Proof.
  induction 1 as [|c s Hc _ IH]; [done|].
  rewrite fmap_cons. simpl utf8_decode.
  rewrite to_N_byte_of_N by lia.
  rewrite (proj2 (N.ltb_lt _ _)) by done. by rewrite IH.
Qed.

Lemma percent_not_in_bytes s :
  Forall (λ c, c < 128) s → PERCENT_CHAR ∉ s → PERCENT ∉ byte_of_N <$> s.
Proof.
  intros Hs Hp [c [Hc Hin]]%list_elem_of_fmap.
  apply Hp. rewrite Forall_forall in Hs. specialize (Hs c Hin).
  assert (Byte.to_N (byte_of_N c) = Byte.to_N PERCENT) as Heq by by rewrite Hc.
  rewrite to_N_byte_of_N in Heq by lia.
  subst c. exact Hin.
Qed.

(** C9: on a non-empty ASCII string without a percent sign, [unquote]
    is the identity. *)
Theorem unquote_identity_ascii (s : list N) :
  s ≠ [] → Forall (λ c, c < 128) s → PERCENT_CHAR ∉ s →
  unquote (VStr s) = Ok s.
Proof.
  intros Hne Hascii Hp. unfold unquote.
  assert (truthy (VStr s) = true) as ->.
  { simpl. by rewrite bool_decide_eq_false_2. }
  simpl. rewrite utf8_encode_ascii by done. simpl.
  rewrite split_single_no_sep by by apply percent_not_in_bytes.
  simpl. by apply utf8_decode_ascii.
Qed.

Lemma unquote_identity_ascii_witness :
  unquote (VStr (lit "a+b_c.d")) = Ok (lit "a+b_c.d").
Proof.
  apply unquote_identity_ascii.
  - discriminate.
  - vm_compute. repeat constructor.
  - not_in_literal.
Defined.

(** The decoder on well-formed input. *)
Example unquote_examples :
  unquote (VStr empty_str) = Ok empty_str
  ∧ unquote (VStr (lit "abc")) = Ok (lit "abc")
  ∧ unquote (VStr (lit "a%20b")) = Ok (lit "a b")
  ∧ unquote (VStr (lit "100%25")) = Ok (lit "100%").
Proof. repeat split; by vm_compute. Qed.

(** X13: a first escape whose two characters [int(_, 16)] rejects makes
    [unquote] raise: the [ValueError] is not the [KeyError] that the
    handler is for. *)
Lemma unquote_first_escape_malformed (pre tail : list byte) :
  PERCENT ∉ pre →
  py_int16 (take 2 (item0 (split [PERCENT] tail))) = Raise ValueError →
  unquote (VBytes (pre ++ PERCENT :: tail)) = Raise ValueError.
Proof.
  intros Hpre Hint. unfold unquote.
  assert (truthy (VBytes (pre ++ PERCENT :: tail)) = true) as ->.
  { simpl. rewrite bool_decide_eq_false_2; [done|]. by destruct pre. }
  simpl. rewrite split_single_app by done.
  pose proof (split_go_nonempty [PERCENT] 0 tail) as Hs.
  fold (split [PERCENT] tail) in Hs.
  destruct (split [PERCENT] tail) as [|item items]; [done|].
  simpl in *. unfold unquote_item, item0 in *. simpl in Hint.
  by rewrite Hint.
Qed.

(** C2 (the code at the failing inputs): a percent sign followed by two
    characters that are not hexadecimal digits, or by nothing, makes
    [unquote] raise [ValueError]; followed by a single hexadecimal digit,
    it is decoded as the byte of that digit.  In no case is a literal
    percent sign written. *)
Theorem unquote_malformed_escape :
  unquote (VStr (lit "%zz")) = Raise ValueError
  ∧ unquote (VStr (lit "100%")) = Raise ValueError
  ∧ unquote (VStr (lit "a%2")) = Ok (lit "a" ++ [2]).
Proof. repeat split; by vm_compute. Qed.

(** ** The request line *)

Lemma first_line l rest :
  CR ∉ l → item0 (split CRLF (l ++ CRLF ++ rest)) = l.
Proof.
  change (CRLF ++ rest) with (CR :: LF :: rest).
  unfold split, item0. induction l as [|x l IH]; simpl.
  - intros _. reflexivity.
  - rewrite not_elem_of_cons. intros [Hne Hl].
    rewrite bool_decide_eq_false_2 by done. simpl.
    specialize (IH Hl).
    pose proof (split_go_nonempty CRLF 0 (l ++ CR :: LF :: rest)) as Hs.
    destruct (split_go CRLF 0 (l ++ CR :: LF :: rest)); [done|].
    simpl in *. by rewrite IH.
Qed.

(** A path of one segment is returned whole, and a request line
    without a query string has the empty query string. *)
Example request_line_one_segment :
  let request := lit "POST /index.html HTTP/1.0" ++ BLANK_LINE ++ lit "a=1" in
  get_request_method request = Ok (VStr (lit "POST"))
  ∧ get_request_path request = Ok (VStr (lit "/index.html"))
  ∧ get_request_query_string request = Ok (VStr empty_str)
  ∧ get_request_query_params request = Ok ∅.
Proof. repeat split; by vm_compute. Qed.

(** C1 (the code on the request line of the claim): whatever follows the
    first line, the method is [GET] and the query string is [x=1], but
    the path is [/b], the last segment only, and not [/a/b]. *)
Theorem request_line_a_b_fields (rest : list N) :
  let request := request_line_a_b ++ CRLF ++ rest in
  get_request_method request = Ok (VStr (lit "GET"))
  ∧ get_request_query_string request = Ok (VStr (lit "x=1"))
  ∧ get_request_path request = Ok (VStr (lit "/b"))
  ∧ get_request_path request ≠ Ok (VStr (lit "/a/b")).
Proof.
  assert (Hline : item0 (split CRLF (request_line_a_b ++ CRLF ++ rest))
                  = request_line_a_b).
  { apply first_line. not_in_literal. }
  cbv zeta.
  unfold get_request_method, get_request_query_string, get_request_path.
  rewrite Hline.
  assert (Hpath : search_group re_path request_line_a_b 1
                  = Ok (VStr (lit "/b"))) by by vm_compute.
  rewrite Hpath.
  repeat split; by vm_compute.
Qed.

(** * Further properties *)

(** ** Greedy runs over a character class *)

(** A run that cannot be extended to a position where the continuation
    succeeds ends where it starts. *)
Lemma star_loop_class_here body p k fuel ps (t : list N) g :
  (∀ st k, body st k = rmatch (RChar p) st k) →
  (∀ t1 t2, t = t1 ++ t2 → t1 ≠ [] → Forall (λ x, p x = true) t1 →
     k (MState (ps + length t1) t2 g) = None) →
  star_loop body k fuel (MState ps t g) = k (MState ps t g).
Proof.
  intros Hbody. revert ps t.
  induction fuel as [|fuel IH]; intros ps t Hfar; simpl; [done|].
  rewrite Hbody. simpl. destruct t as [|c t]; [done|].
  destruct (p c) eqn:Hc; [|done].
  unfold advance. simpl. rewrite decide_True by lia.
  rewrite IH.
  - assert (H1 : k (MState (ps + length [c]) t g) = None).
    { apply Hfar; [done|done|]. by repeat constructor. }
    simpl in H1. rewrite Nat.add_1_r in H1. by rewrite H1.
  - intros t1 t2 -> Hne Hp.
    replace (S ps + length t1)%nat with (ps + length (c :: t1))%nat
      by (simpl; lia).
    apply Hfar; [done|done|by constructor].
Qed.

(** The greedy run over the class [p] on [a ++ t] hands over to the
    continuation after [a], when the continuation fails at every later
    position the run can reach and either succeeds after [a] or fails
    at every earlier position too. *)
Lemma star_loop_class_at body p k fuel ps (a t : list N) g :
  (∀ st k, body st k = rmatch (RChar p) st k) →
  (length (a ++ t) ≤ fuel)%nat →
  Forall (λ x, p x = true) a →
  (∀ t1 t2, t = t1 ++ t2 → t1 ≠ [] → Forall (λ x, p x = true) t1 →
     k (MState (ps + length a + length t1) t2 g) = None) →
  (is_Some (k (MState (ps + length a) t g))
   ∨ ∀ a1 a2, a = a1 ++ a2 → a2 ≠ [] →
       k (MState (ps + length a1) (a2 ++ t) g) = None) →
  star_loop body k fuel (MState ps (a ++ t) g)
  = k (MState (ps + length a) t g).
Proof.
  intros Hbody. revert ps fuel.
  induction a as [|x a IH]; intros ps fuel Hfuel Ha Hfar Hnear.
  - simpl in *. rewrite Nat.add_0_r in *.
    by apply (star_loop_class_here _ p).
  - apply Forall_cons in Ha as [Hx Ha].
    destruct fuel as [|fuel]; [simpl in Hfuel; lia|].
    simpl in Hfuel, Hfar, Hnear |- *. rewrite Hbody. simpl. rewrite Hx.
    unfold advance. simpl. rewrite decide_True by lia.
    rewrite Nat.add_succ_r in Hnear |- *.
    change (S (ps + length a)) with (S ps + length a)%nat in Hnear |- *.
    rewrite (IH (S ps)).
    + destruct (k (MState (S ps + length a) t g)) as [m|] eqn:Hk; [done|].
      destruct Hnear as [[m Hm]|Hnear]; [congruence|].
      specialize (Hnear [] (x :: a) eq_refl). simpl in Hnear.
      rewrite Nat.add_0_r in Hnear. by rewrite Hnear.
    + lia.
    + done.
    + intros t1 t2 Ht Hne Hp.
      replace (S ps + length a + length t1)%nat
        with (ps + S (length a) + length t1)%nat by lia.
      by apply Hfar.
    + destruct Hnear as [Hs|Hnear]; [by left|right].
      intros a1 a2 -> Hne.
      replace (S ps + length a1)%nat with (ps + length (x :: a1))%nat
        by (simpl; lia).
      by apply Hnear.
Qed.

(** [p+] on a string that starts with [x :: a], all in [p]. *)
Lemma rmatch_plus_class_at p k ps x (a t : list N) g :
  p x = true →
  Forall (λ y, p y = true) a →
  (∀ t1 t2, t = t1 ++ t2 → t1 ≠ [] → Forall (λ y, p y = true) t1 →
     k (MState (ps + S (length a) + length t1) t2 g) = None) →
  (is_Some (k (MState (ps + S (length a)) t g))
   ∨ ∀ a1 a2, a = a1 ++ a2 → a2 ≠ [] →
       k (MState (ps + S (length a1)) (a2 ++ t) g) = None) →
  rmatch (RPlus (RChar p)) (MState ps (x :: a ++ t) g) k
  = k (MState (ps + S (length a)) t g).
Proof.
  intros Hx Ha Hfar Hnear. simpl. rewrite Hx. unfold advance. simpl.
  rewrite Nat.add_succ_r in Hnear |- *.
  change (S (ps + length a)) with (S ps + length a)%nat in Hnear |- *.
  apply (star_loop_class_at _ p); try done.
  - intros t1 t2 Ht Hne Hp.
    replace (S ps + length a + length t1)%nat
      with (ps + S (length a) + length t1)%nat by lia.
    by apply Hfar.
  - destruct Hnear as [Hs|Hnear]; [by left|right].
    intros a1 a2 -> Hne.
    replace (S ps + length a1)%nat with (ps + S (length a1))%nat by lia.
    by apply Hnear.
Qed.

Lemma rmatch_plus_class_fail p k st :
  match rest st with
  | [] => True
  | c :: _ => p c = false
  end →
  rmatch (RPlus (RChar p)) st k = None.
Proof.
  simpl. destruct (rest st) as [|c s]; [done|]. by intros ->.
Qed.

Lemma star_loop_total body k fuel st :
  (∀ st', is_Some (k st')) → is_Some (star_loop body k fuel st).
Proof.
  intros Hk. destruct fuel as [|fuel]; simpl; [done|].
  by destruct (body st _).
Qed.

Lemma take_while_Forall {A} (p : A → bool) (l : list A) :
  Forall (λ x, p x = true) (take_while p l).
Proof.
  induction l as [|x l IH]; simpl; [done|].
  destruct (p x) eqn:Hx; by constructor.
Qed.

Lemma take_while_drop (p : N → bool) (l : list N) :
  l = take_while p l ++ drop (length (take_while p l)) l
  ∧ stops_at p (drop (length (take_while p l)) l).
Proof.
  induction l as [|x l [IH1 IH2]]; simpl.
  - split; [done|]. by intros c.
  - destruct (p x) eqn:Hx; simpl.
    + split; [by f_equal|done].
    + split; [done|]. by intros c [= <-].
Qed.

Lemma take_while_app_stop (p : N → bool) (a t : list N) :
  Forall (λ x, p x = true) a → stops_at p t → take_while p (a ++ t) = a.
Proof.
  intros Ha Ht. induction Ha as [|x a Hx _ IH]; simpl.
  - destruct t as [|c t]; [done|]. simpl. by rewrite (Ht c eq_refl).
  - by rewrite Hx, IH.
Qed.

Lemma stops_at_no_run (p : N → bool) (t t1 t2 : list N) :
  stops_at p t → t = t1 ++ t2 → t1 ≠ [] → ¬ Forall (λ x, p x = true) t1.
Proof.
  intros Ht -> Hne Hp. destruct t1 as [|c t1]; [done|].
  apply Forall_cons in Hp as [Hc _]. specialize (Ht c eq_refl). congruence.
Qed.

(** ** The anchored patterns *)

Lemma search_from_bol r p s :
  (0 < p)%nat → search_from (RSeq RBol r) p s = None.
Proof.
  revert p. induction s as [|c s IH]; intros p Hp;
    rewrite search_from_unfold; simpl; rewrite decide_False by lia; [done|].
  apply IH. lia.
Qed.

Lemma re_search_bol r s :
  re_search (RSeq RBol r) s = rmatch r (MState 0 s ∅) Some.
Proof.
  unfold re_search. rewrite search_from_unfold. simpl.
  destruct (rmatch r (MState 0 s ∅) Some); [done|].
  destruct s; [done|]. apply search_from_bol. lia.
Qed.

(** ** The first line *)

Lemma item0_split_crlf_cons c s :
  item0 (split CRLF (c :: s))
  = if starts_with CRLF (c :: s) then [] else c :: item0 (split CRLF s).
Proof.
  unfold item0, split. simpl.
  destruct (bool_decide (CR = c) && _); [done|].
  pose proof (split_go_nonempty CRLF 0 s) as Hs.
  by destruct (split_go CRLF 0 s).
Qed.

Lemma item0_split_crlf_app a r :
  CR ∉ a → item0 (split CRLF (a ++ r)) = a ++ item0 (split CRLF r).
Proof.
  induction a as [|x a IH]; [done|].
  rewrite not_elem_of_cons. intros [Hx Ha]. simpl.
  rewrite item0_split_crlf_cons. simpl.
  rewrite bool_decide_eq_false_2 by done. simpl. by rewrite IH.
Qed.

Lemma item0_split_crlf_stops p r :
  stops_at p r → stops_at p (item0 (split CRLF r)).
Proof.
  intros Hr. destruct r as [|c r]; [by intros c|].
  rewrite item0_split_crlf_cons.
  destruct (starts_with CRLF (c :: r)); [by intros c'|].
  intros c' [= <-]. by apply Hr.
Qed.

Lemma take_while_first_line (p : N → bool) s :
  p CR = false →
  take_while p (item0 (split CRLF s)) = take_while p s.
Proof.
  intros Hcr. induction s as [|c s IH]; [done|].
  rewrite item0_split_crlf_cons.
  destruct (starts_with CRLF (c :: s)) eqn:Hsw; simpl.
  - simpl in Hsw. apply andb_true_iff in Hsw as [Hc _].
    apply bool_decide_eq_true in Hc as <-. by rewrite Hcr.
  - by rewrite IH.
Qed.

(** ** The request method *)

Lemma search_group_re_method s :
  search_group re_method s 1
  = match take_while cls_upper s with
    | [] => Raise AttributeError
    | m => Ok (VStr m)
    end.
Proof.
  unfold search_group, re_method. rewrite re_search_bol.
  destruct (take_while_drop cls_upper s) as [Hs Hstop].
  pose proof (take_while_Forall cls_upper s) as Hall.
  destruct (take_while cls_upper s) as [|x a] eqn:Hrun.
  - simpl in Hs, Hstop. change (rmatch (RGroup 1 ?r) ?st ?k)
      with (rmatch r st (λ st', k (set_group 1 st st'))).
    rewrite rmatch_plus_class_fail; [done|].
    simpl. destruct s as [|c s]; [done|]. by apply Hstop.
  - apply Forall_cons in Hall as [Hx Ha].
    change (rmatch (RGroup 1 ?r) ?st ?k)
      with (rmatch r st (λ st', k (set_group 1 st st'))).
    rewrite Hs at 1. rewrite <- app_comm_cons.
    rewrite rmatch_plus_class_at; try done.
    + unfold group, set_group. simpl. rewrite lookup_insert_eq.
      rewrite Hs at 1. rewrite <- app_comm_cons. simpl.
      by rewrite take_app_length.
    + intros t1 t2 Ht Hne Hp.
      by destruct (stops_at_no_run _ _ _ _ Hstop Ht Hne).
    + by left.
Qed.

(** X1: the method of a request is its longest leading run of upper-case
    ASCII letters; a request that does not start with such a letter
    raises [AttributeError]. *)
Theorem get_request_method_upper_run (request : list N) :
  get_request_method request
  = match take_while cls_upper request with
    | [] => Raise AttributeError
    | m => Ok (VStr m)
    end.
Proof.
  unfold get_request_method. rewrite search_group_re_method.
  by rewrite take_while_first_line.
Qed.

(** ** The request path *)

Lemma rmatch_seq r1 r2 st k :
  rmatch (RSeq r1 r2) st k = rmatch r1 st (λ st1, rmatch r2 st1 k).
Proof. reflexivity. Qed.

Lemma rmatch_star r st k :
  rmatch (RStar r) st k = star_loop (rmatch r) k (length (rest st)) st.
Proof. reflexivity. Qed.

Lemma rmatch_group n r st k :
  rmatch (RGroup n r) st k = rmatch r st (λ st', k (set_group n st st')).
Proof. reflexivity. Qed.

Lemma rmatch_char p st k :
  rmatch (RChar p) st k
  = match rest st with
    | c :: s' => if p c then k (advance st s') else None
    | [] => None
    end.
Proof. reflexivity. Qed.

Lemma cls_upper_not_space c : cls_upper c = true → cls_space c = false.
Proof.
  unfold cls_upper, cls_space, in_range, is_char.
  rewrite andb_true_iff, !N.leb_le. intros [H1 H2].
  repeat (apply orb_false_iff; split);
    rewrite ?andb_false_iff, ?N.leb_gt, ?bool_decide_eq_false; lia.
Qed.

Lemma cls_space_not_upper c : cls_space c = true → cls_upper c = false.
Proof.
  intros Hs. destruct (cls_upper c) eqn:Hu; [|done].
  apply cls_upper_not_space in Hu. congruence.
Qed.

Lemma Forall_class_not_in (p : N → bool) (a : list N) c :
  Forall (λ x, p x = true) a → p c = false → c ∉ a.
Proof.
  intros Ha Hc Hin. rewrite Forall_forall in Ha.
  specialize (Ha c Hin). congruence.
Qed.

Lemma path_of_segments_cons seg segs :
  path_of_segments (seg :: segs) = SLASH :: seg ++ path_of_segments segs.
Proof. reflexivity. Qed.

Lemma path_of_segments_stops (p : N → bool) segs r :
  p SLASH = false → stops_at p r → stops_at p (path_of_segments segs ++ r).
Proof.
  intros Hp Hr. destruct segs as [|seg segs]; [done|].
  intros c [= <-]. done.
Qed.

(** The repetition of the segment group runs through all the segments
    and leaves the last one in group 1. *)
Lemma star_loop_segments body fuel ps segs r g :
  (∀ st k, body st k = rmatch re_segment st k) →
  Forall (Forall (λ x, cls_path x = true)) segs →
  stops_at cls_path r → stops_at (is_char SLASH) r →
  (length (path_of_segments segs ++ r) ≤ fuel)%nat →
  ∃ m, star_loop body Some fuel (MState ps (path_of_segments segs ++ r) g)
       = Some m
       ∧ groups m !! 1%nat
         = match last segs with
           | Some seg => Some (SLASH :: seg)
           | None => g !! 1%nat
           end.
Proof.
  intros Hbody Hsegs Hr1 Hr2. revert fuel ps g.
  induction Hsegs as [|seg segs Hseg _ IH]; intros fuel ps g Hfuel.
  - simpl. exists (MState ps r g). split; [|done].
    destruct fuel as [|fuel]; simpl; [done|].
    rewrite Hbody. unfold re_segment.
    rewrite rmatch_group, rmatch_seq, rmatch_char. simpl.
    destruct r as [|c r]; [done|]. by rewrite (Hr2 c eq_refl).
  - rewrite path_of_segments_cons in Hfuel |- *.
    rewrite <- app_comm_cons, <- app_assoc in Hfuel |- *.
    destruct fuel as [|fuel]; [simpl in Hfuel; lia|].
    simpl in Hfuel.
    destruct (IH fuel (S ps + length seg)%nat
                (<[1%nat := SLASH :: seg]> g)) as (m & Hm & Hg).
    { rewrite length_app in Hfuel. lia. }
    exists m. split.
    + cbn [star_loop]. rewrite Hbody. unfold re_segment at 1.
      rewrite rmatch_group, rmatch_seq, rmatch_char. cbn [rest].
      unfold is_char at 1. rewrite bool_decide_eq_true_2 by done.
      rewrite rmatch_star. unfold advance. cbn [rest pos groups].
      match goal with
      | |- context [star_loop _ ?k _ _] => set (kk := k)
      end.
      assert (Hkk : kk (MState (S ps + length seg)
                          (path_of_segments segs ++ r) g) = Some m).
      { unfold kk, set_group. cbn [pos rest groups].
        rewrite decide_True by lia.
        replace (S ps + length seg - ps)%nat with (S (length seg)) by lia.
        rewrite firstn_cons, take_app_length. exact Hm. }
      rewrite (star_loop_class_at _ cls_path kk); try done.
      * by rewrite Hkk.
      * intros t1 t2 Ht Hne Hp.
        by destruct (stops_at_no_run cls_path _ _ _
                       (path_of_segments_stops _ segs r eq_refl Hr1)
                       Ht Hne).
      * left. by rewrite Hkk.
    + rewrite Hg, last_cons. destruct (last segs); [done|].
      by rewrite lookup_insert_eq.
Qed.

(** The path pattern on a line made of an upper-case run, a white-space
    run and the segments of a path. *)
Lemma search_group_re_path (m_ ws : list N) segs r :
  m_ ≠ [] → Forall (λ x, cls_upper x = true) m_ →
  ws ≠ [] → Forall (λ x, cls_space x = true) ws →
  Forall (Forall (λ x, cls_path x = true)) segs →
  stops_at cls_path r → stops_at (is_char SLASH) r →
  (segs = [] → stops_at cls_space r) →
  search_group re_path (m_ ++ ws ++ path_of_segments segs ++ r) 1
  = Ok (match last segs with
        | Some seg => VStr (SLASH :: seg)
        | None => VNone
        end).
Proof.
  intros Hm0 Hm Hw0 Hw Hsegs Hr1 Hr2 Hr3.
  destruct m_ as [|x m_]; [done|]. destruct ws as [|w ws]; [done|].
  apply Forall_cons in Hm as [Hx Hm]. apply Forall_cons in Hw as [Hw1 Hw].
  unfold search_group.
  change re_path
    with (RSeq RBol
            (RSeq (RPlus (RChar cls_upper))
               (RSeq (RPlus (RChar cls_space)) (RStar re_segment)))).
  rewrite re_search_bol.
  destruct (star_loop_segments (rmatch re_segment)
              (length (path_of_segments segs ++ r))
              (0 + S (length m_) + S (length ws))%nat segs r ∅)
    as (m & Hstar & Hg); try done.
  assert (Hspace : stops_at cls_space (path_of_segments segs ++ r)).
  { destruct segs as [|seg segs]; [by apply Hr3|]. by intros c [= <-]. }
  rewrite rmatch_seq. rewrite <- app_comm_cons.
  rewrite rmatch_plus_class_at; try done.
  - rewrite rmatch_seq. rewrite <- app_comm_cons.
    rewrite rmatch_plus_class_at; try done.
    + rewrite rmatch_star. cbn [rest]. rewrite Hstar.
      unfold group. rewrite Hg. by destruct (last segs).
    + intros t1 t2 Ht Hne Hp.
      by destruct (stops_at_no_run _ _ _ _ Hspace Ht Hne).
    + left. rewrite rmatch_star. cbn [rest]. by rewrite Hstar.
  - intros t1 t2 Ht Hne Hp.
    assert (Hstop : stops_at cls_upper
                      ((w :: ws) ++ path_of_segments segs ++ r)).
    { intros c [= <-]. by apply cls_space_not_upper. }
    by destruct (stops_at_no_run _ _ _ _ Hstop Ht Hne).
  - right. intros a1 a2 -> Hne. rewrite rmatch_seq.
    apply rmatch_plus_class_fail. cbn [rest].
    destruct a2 as [|c a2]; [done|]. simpl.
    apply cls_upper_not_space.
    apply Forall_app in Hm as [_ Hm]. by apply Forall_cons in Hm as [Hc _].
Qed.

Lemma search_group_re_path_no_match (m_ r : list N) :
  Forall (λ x, cls_upper x = true) m_ →
  stops_at cls_upper r → stops_at cls_space r →
  search_group re_path (m_ ++ r) 1 = Raise AttributeError.
Proof.
  intros Hm Hr1 Hr2. unfold search_group, re_path. rewrite re_search_bol.
  rewrite rmatch_seq.
  assert (Hfail : ∀ ps g k,
            rmatch (RSeq (RPlus (RChar cls_space)) k) (MState ps r g) Some
            = None).
  { intros ps g k. rewrite rmatch_seq. apply rmatch_plus_class_fail.
    cbn [rest]. destruct r as [|c r]; [done|]. by apply Hr2. }
  destruct m_ as [|x m_].
  - simpl app. rewrite rmatch_plus_class_fail; [done|].
    cbn [rest]. destruct r as [|c r]; [done|]. by apply Hr1.
  - apply Forall_cons in Hm as [Hx Hm]. rewrite <- app_comm_cons.
    rewrite rmatch_plus_class_at; try done.
    + by rewrite Hfail.
    + intros t1 t2 Ht Hne Hp.
      by destruct (stops_at_no_run _ _ _ _ Hr1 Ht Hne).
    + right. intros a1 a2 -> Hne. rewrite rmatch_seq.
      apply rmatch_plus_class_fail. cbn [rest].
      destruct a2 as [|c a2]; [done|]. simpl.
      apply cls_upper_not_space.
      apply Forall_app in Hm as [_ Hm]. by apply Forall_cons in Hm as [Hc _].
Qed.

(** X2: for a request that starts with an upper-case method, white space
    (without a carriage return) and a path of slash-led segments over
    [[-a-zA-Z0-9_.]], [get_request_path] returns the last segment with
    its slash, whatever the number of segments; without any segment it
    returns [None]. *)
Theorem get_request_path_last_segment (m_ ws : list N) segs rest_ :
  m_ ≠ [] → Forall (λ x, cls_upper x = true) m_ →
  ws ≠ [] → Forall (λ x, cls_space x = true) ws → CR ∉ ws →
  Forall (Forall (λ x, cls_path x = true)) segs →
  stops_at cls_path rest_ → stops_at (is_char SLASH) rest_ →
  (segs = [] → stops_at cls_space rest_) →
  get_request_path (m_ ++ ws ++ path_of_segments segs ++ rest_)
  = Ok (match last segs with
        | Some seg => VStr (SLASH :: seg)
        | None => VNone
        end).
Proof.
  intros Hm0 Hm Hw0 Hw Hcr Hsegs Hr1 Hr2 Hr3. unfold get_request_path.
  assert (Hp : CR ∉ path_of_segments segs).
  { clear -Hsegs. induction Hsegs as [|seg segs Hseg _ IH]; [by intros ?%elem_of_nil|].
    rewrite path_of_segments_cons, not_elem_of_cons, not_elem_of_app.
    split; [done|]. split; [|done].
    by apply (Forall_class_not_in cls_path). }
  rewrite !item0_split_crlf_app;
    [|done|done|by apply (Forall_class_not_in cls_upper)].
  apply search_group_re_path; try done;
    try by apply item0_split_crlf_stops.
  intros Hs. by apply item0_split_crlf_stops, Hr3.
Qed.

Lemma get_request_path_last_segment_witness :
  get_request_path (lit "GET /static/css/site.css?v=2 HTTP/1.0" ++ CRLF)
  = Ok (VStr (lit "/site.css"))
  ∧ get_request_path (lit "GET /index.html HTTP/1.0" ++ CRLF)
    = Ok (VStr (lit "/index.html"))
  ∧ get_request_path (lit "GET ?x=1 HTTP/1.0" ++ CRLF) = Ok VNone.
Proof.
  split; [|split].
  - apply (get_request_path_last_segment (lit "GET") (lit " ")
             [lit "static"; lit "css"; lit "site.css"]
             (lit "?v=2 HTTP/1.0" ++ CRLF));
      try done; try not_in_literal; try (by intros c [= <-]);
      by repeat constructor.
  - apply (get_request_path_last_segment (lit "GET") (lit " ")
             [lit "index.html"] (lit " HTTP/1.0" ++ CRLF));
      try done; try not_in_literal; try (by intros c [= <-]);
      by repeat constructor.
  - apply (get_request_path_last_segment (lit "GET") (lit " ") []
             (lit "?x=1 HTTP/1.0" ++ CRLF));
      try done; try not_in_literal; try (by intros c [= <-]);
      try (by intros _ c [= <-]); by repeat constructor.
Defined.

(** X3: when the request does not start with an upper-case run that white
    space follows, [get_request_path] raises [AttributeError]. *)
Theorem get_request_path_no_match (m_ rest_ : list N) :
  Forall (λ x, cls_upper x = true) m_ →
  stops_at cls_upper rest_ → stops_at cls_space rest_ →
  get_request_path (m_ ++ rest_) = Raise AttributeError.
Proof.
  intros Hm Hr1 Hr2. unfold get_request_path.
  rewrite item0_split_crlf_app by by apply (Forall_class_not_in cls_upper).
  apply search_group_re_path_no_match; try done;
    by apply item0_split_crlf_stops.
Qed.

Lemma get_request_path_no_match_witness :
  get_request_path (lit "get / HTTP/1.0" ++ CRLF) = Raise AttributeError
  ∧ get_request_path (lit "GET/ HTTP/1.0" ++ CRLF) = Raise AttributeError
  ∧ get_request_path empty_str = Raise AttributeError.
Proof.
  split; [|split].
  - apply (get_request_path_no_match [] (lit "get / HTTP/1.0" ++ CRLF));
      [done| |]; by intros c [= <-].
  - apply (get_request_path_no_match (lit "GET") (lit "/ HTTP/1.0" ++ CRLF));
      [by repeat constructor| |]; by intros c [= <-].
  - apply (get_request_path_no_match [] []); [done| |]; by intros c.
Defined.

(** ** The query string *)

Lemma rmatch_re_query_fail ps s g :
  stops_at (is_char QUESTION) s →
  rmatch re_query (MState ps s g) Some = None.
Proof.
  intros Hs. unfold re_query. rewrite rmatch_seq, rmatch_char. cbn [rest].
  destruct s as [|c s]; [done|].
  by rewrite (Hs c eq_refl : is_char 63 c = false).
Qed.

Lemma search_from_re_query_skip ps pre s :
  QUESTION ∉ pre →
  search_from re_query ps (pre ++ s)
  = search_from re_query (ps + length pre) s.
Proof.
  revert ps. induction pre as [|x pre IH]; intros ps.
  - intros _. simpl. by rewrite Nat.add_0_r.
  - rewrite not_elem_of_cons. intros [Hx Hpre].
    rewrite search_from_unfold. simpl app.
    rewrite rmatch_re_query_fail.
    + rewrite IH by done. simpl. by rewrite Nat.add_succ_r.
    + intros c [= <-]. unfold is_char. by rewrite bool_decide_eq_false_2.
Qed.

Lemma re_search_re_query_none line :
  QUESTION ∉ line → re_search re_query line = None.
Proof.
  intros Hq. unfold re_search.
  rewrite <- (app_nil_r line), search_from_re_query_skip by done.
  rewrite search_from_unfold. by rewrite rmatch_re_query_fail.
Qed.

(** The capture of the query pattern: from the first question mark up to
    the last white-space character of the line. *)
Lemma re_search_re_query_some pre q sp ver :
  QUESTION ∉ pre →
  q ≠ [] → LF ∉ q →
  cls_space sp = true →
  Forall (λ x, cls_space x = false) ver →
  group 1 <$> re_search re_query (pre ++ [QUESTION] ++ q ++ [sp] ++ ver)
  = Some (VStr q).
Proof.
  intros Hpre Hq0 Hq Hsp Hver. unfold re_search.
  rewrite search_from_re_query_skip by done.
  rewrite search_from_unfold.
  destruct q as [|x q]; [done|].
  apply not_elem_of_cons in Hq as [Hx Hq].
  assert (Hdot : ∀ c, c ≠ LF → cls_dot c = true).
  { intros c Hc. unfold cls_dot. by rewrite bool_decide_eq_false_2. }
  unfold re_query at 1. rewrite rmatch_seq, rmatch_char. cbn [rest app].
  unfold is_char at 1. rewrite bool_decide_eq_true_2 by done.
  rewrite rmatch_seq, rmatch_group. unfold advance. cbn [pos rest groups].
  rewrite rmatch_plus_class_at.
  - rewrite rmatch_char. unfold set_group. cbn [pos rest groups].
    rewrite Hsp. simpl.
    unfold group, advance. cbn [groups]. rewrite lookup_insert_eq.
    do 2 f_equal.
    replace (length pre + S (length q) - length pre)%nat
      with (S (length q)) by lia.
    by rewrite firstn_cons, take_app_length.
  - apply Hdot. by intros ->.
  - apply Forall_forall. intros c Hc. apply Hdot. by intros ->.
  - intros t1 t2 Ht Hne Hp. rewrite rmatch_char.
    unfold set_group. cbn [rest].
    destruct t2 as [|c t2]; [done|].
    assert (Hin : c ∈ ver).
    { destruct t1 as [|y t1]; [done|]. injection Ht as -> ->.
      apply elem_of_app. right. by left. }
    rewrite Forall_forall in Hver. by rewrite (Hver c Hin).
  - left. rewrite rmatch_char. unfold set_group. cbn [rest].
    by rewrite Hsp.
Qed.

(** X4: a first line without a question mark has the empty query string and
    the empty parameter mapping: a missing query is no error. *)
Theorem get_request_query_missing (line rest_ : list N) :
  CR ∉ line → QUESTION ∉ line →
  get_request_query_string (line ++ CRLF ++ rest_) = Ok (VStr [])
  ∧ get_request_query_params (line ++ CRLF ++ rest_) = Ok ∅.
Proof.
  intros Hcr Hq.
  assert (Hqs : get_request_query_string (line ++ CRLF ++ rest_)
                = Ok (VStr [])).
  { unfold get_request_query_string. rewrite first_line by done.
    by rewrite re_search_re_query_none. }
  split; [done|]. unfold get_request_query_params. by rewrite Hqs.
Qed.

Lemma get_request_query_missing_witness :
  get_request_query_string
    (lit "GET /index.html HTTP/1.0" ++ CRLF ++ lit "Host: a?b" ++ CRLF)
  = Ok (VStr [])
  ∧ get_request_query_params
      (lit "GET /index.html HTTP/1.0" ++ CRLF ++ lit "Host: a?b" ++ CRLF)
    = Ok ∅.
Proof.
  apply (get_request_query_missing (lit "GET /index.html HTTP/1.0"));
    not_in_literal.
Defined.

(** X5: in a first line of the form [... ? query SP version], where the
    version holds no white space, the query string is the text between
    the first question mark and the last white-space character of the
    line, and the query parameters are that text parsed. *)
Theorem get_request_query_string_spec (pre q ver rest_ : list N) (sp : N) :
  CR ∉ pre → QUESTION ∉ pre →
  q ≠ [] → CR ∉ q → LF ∉ q →
  cls_space sp = true → sp ≠ CR →
  Forall (λ x, cls_space x = false) ver →
  let request := pre ++ [QUESTION] ++ q ++ [sp] ++ ver ++ CRLF ++ rest_ in
  get_request_query_string request = Ok (VStr q)
  ∧ get_request_query_params request = parse_query_string (VStr q).
Proof.
  intros Hcr Hpre Hq0 Hqcr Hq Hsp Hspcr Hver request.
  assert (Hqs : get_request_query_string request = Ok (VStr q)).
  { unfold get_request_query_string, request.
    replace (pre ++ [QUESTION] ++ q ++ [sp] ++ ver ++ CRLF ++ rest_)
      with ((pre ++ [QUESTION] ++ q ++ [sp] ++ ver) ++ CRLF ++ rest_)
      by (by rewrite <- !app_assoc).
    rewrite first_line.
    - pose proof (re_search_re_query_some pre q sp ver Hpre Hq0 Hq Hsp Hver)
        as Hs.
      destruct (re_search re_query _) as [m|]; [|done].
      by injection Hs as ->.
    - rewrite !not_elem_of_app, !not_elem_of_cons.
      repeat split; try done; try by apply not_elem_of_nil.
      apply (Forall_class_not_in (λ x, negb (cls_space x))); [|done].
      eapply Forall_impl; [exact Hver|]. by intros c ->. }
  split; [done|]. unfold get_request_query_params. by rewrite Hqs.
Qed.

Lemma get_request_query_string_spec_witness :
  get_request_query_string
    (lit "GET /find?name=a b&page=2 HTTP/1.0" ++ CRLF ++ lit "Host: h" ++ CRLF)
  = Ok (VStr (lit "name=a b&page=2"))
  ∧ get_request_query_params
      (lit "GET /find?name=a b&page=2 HTTP/1.0" ++ CRLF
         ++ lit "Host: h" ++ CRLF)
    = Ok {[ lit "name" := lit "a b"; lit "page" := lit "2" ]}.
Proof.
  destruct (get_request_query_string_spec (lit "GET /find")
              (lit "name=a b&page=2") (lit "HTTP/1.0")
              (lit "Host: h" ++ CRLF) 32) as [H1 H2];
    try done; try not_in_literal; by repeat constructor.
Defined.

(** ** The pieces of a split *)

Section split_pieces.
Context {A : Type} `{EqDecision A}.
Implicit Types (c : A) (s x : list A).

Lemma item0_elem_of (l : list (list A)) : l ≠ [] → item0 l ∈ l.
Proof. destruct l; [done|]. intros _. by left. Qed.

Lemma item1_elem_of (l : list (list A)) :
  length l ≠ 0%nat → length l ≠ 1%nat → item1 l ∈ l.
Proof. destruct l as [|a [|b l]]; [done|done|]. intros _ _. right. by left. Qed.

Lemma split_single_piece c s x :
  x ∈ split [c] s → (c ∉ x) ∧ (∀ y, y ∈ x → y ∈ s).
Proof.
  revert x. induction s as [|z s IH]; intros x.
  - intros Hx. apply list_elem_of_singleton in Hx as ->.
    split; [apply not_elem_of_nil|done].
  - destruct (decide (z = c)) as [->|Hne].
    + rewrite split_single_cons_eq, elem_of_cons. intros [->|Hx].
      * split; [apply not_elem_of_nil|]. intros y Hy. by apply elem_of_nil in Hy.
      * destruct (IH x Hx) as [H1 H2]. split; [done|].
        intros y Hy. right. by apply H2.
    + rewrite split_single_cons_ne by done.
      pose proof (split_go_nonempty [c] 0 s) as Hs. fold (split [c] s) in Hs.
      destruct (split [c] s) as [|w ws] eqn:Hsp; [done|]. simpl.
      rewrite drop_0, elem_of_cons. intros [->|Hx].
      * destruct (IH w) as [H1 H2]; [by left|]. split.
        -- rewrite not_elem_of_cons. split; [done|done].
        -- intros y [->|Hy]%elem_of_cons; [by left|]. right. by apply H2.
      * destruct (IH x) as [H1 H2]; [by right|]. split; [done|].
        intros y Hy. right. by apply H2.
Qed.
End split_pieces.

(** ** Bindings of the parameter mapping *)

(** X6: every binding of the mapping comes from a token of the query string:
    its key and its value are the first two pieces of that token, and
    neither holds an ampersand or an equals sign. *)
Theorem parse_query_string_bindings (s k v : list N)
    (m : gmap (list N) (list N)) :
  parse_query_string (VStr s) = Ok m → m !! k = Some v →
  (∃ t, t ∈ split [AMP] s ∧ k = param_key t ∧ v = param_value t)
  ∧ (AMP ∉ k) ∧ (EQS ∉ k) ∧ (AMP ∉ v) ∧ (EQS ∉ v).
Proof.
  intros Hm Hk. destruct (decide (s = [])) as [->|Hs].
  { injection Hm as <-. by rewrite lookup_empty in Hk. }
  rewrite parse_query_string_nonempty in Hm by done. injection Hm as <-.
  rewrite foldl_parse_param_lookup in Hk.
  destruct (last_with_key k (split [AMP] s)) as [t|] eqn:Ht;
    [|by rewrite lookup_empty in Hk].
  injection Hk as <-. unfold last_with_key in Ht.
  apply last_Some_elem_of, list_elem_of_filter in Ht as [<- Ht].
  destruct (split_single_piece AMP s t Ht) as [Hamp _].
  pose proof (split_go_nonempty [EQS] 0 t) as Hne. fold (split [EQS] t) in Hne.
  assert (Hkey : param_key t ∈ split [EQS] t) by by apply item0_elem_of.
  destruct (split_single_piece EQS t _ Hkey) as [Hk1 Hk2].
  split; [by exists t|]. split; [by intros ?%Hk2|]. split; [done|].
  unfold param_value. case_decide as Hlen.
  - split; apply not_elem_of_nil.
  - assert (Hval : item1 (split [EQS] t) ∈ split [EQS] t).
    { apply item1_elem_of; [|done]. by destruct (split [EQS] t). }
    destruct (split_single_piece EQS t _ Hval) as [Hv1 Hv2].
    split; [by intros ?%Hv2|done].
Qed.

Lemma parse_query_string_bindings_witness :
  (AMP ∉ lit "b") ∧ (EQS ∉ lit "b").
Proof.
  destruct (parse_query_string_bindings (lit "x=0&a=b=c") (lit "a") (lit "b")
              {[ lit "x" := lit "0"; lit "a" := lit "b" ]})
    as (_ & _ & _ & H1 & H2); [by vm_compute|by vm_compute|].
  by split.
Defined.

(** ** The shape of the body *)

Lemma find_body_occurrence s l :
  find_body s = Some l →
  ∃ pre post, s = pre ++ BLANK_LINE ++ l ++ post
              ∧ l ≠ [] ∧ (LF ∉ l) ∧ stops_at cls_dot post.
Proof.
  induction s as [|c s IH]; rewrite find_body_unfold; unfold body_at.
  - by vm_compute.
  - destruct (starts_with BLANK_LINE (c :: s)) eqn:Hsw.
    + apply starts_with_inv in Hsw.
      change (length BLANK_LINE) with 4%nat in Hsw.
      destruct (take_while_drop cls_dot (drop 4 (c :: s))) as [Hd Hstop].
      pose proof (take_while_Forall cls_dot (drop 4 (c :: s))) as Hall.
      destruct (take_while cls_dot (drop 4 (c :: s))) as [|x l'] eqn:Hrun.
      * intros Hl. destruct (IH Hl) as (pre & post & -> & H).
        by exists (c :: pre), post.
      * intros [= <-]. exists [], (drop (length (x :: l')) (drop 4 (c :: s))).
        split; [|split; [done|split; [|done]]].
        -- rewrite app_nil_l, <- Hd. exact Hsw.
        -- intros Hin. rewrite Forall_forall in Hall.
           specialize (Hall LF Hin). by vm_compute in Hall.
    + intros Hl. destruct (IH Hl) as (pre & post & -> & H).
      by exists (c :: pre), post.
Qed.

(** X8: [get_request_body] returns either the empty mapping or a non-empty
    string without a line feed that stands in the request right after a
    blank-line separator and ends at a line feed or at the end of the
    request: it never returns the empty string. *)
Theorem get_request_body_shape (request : list N) :
  get_request_body request = VDict ∅
  ∨ ∃ l pre post,
      get_request_body request = VStr l
      ∧ request = pre ++ BLANK_LINE ++ l ++ post
      ∧ l ≠ [] ∧ (LF ∉ l) ∧ stops_at cls_dot post.
Proof.
  rewrite get_request_body_find_body.
  destruct (find_body request) as [l|] eqn:Hl; [right|by left].
  destruct (find_body_occurrence _ _ Hl) as (pre & post & H).
  by exists l, pre, post.
Qed.

(** ** POST parameters and the body *)

(** X10: for a request whose method is the expected one: without a blank-line
    separator the POST parameters are the empty mapping, and with a
    single-line body after the first separator they are that body parsed
    as a query string. *)
Theorem get_request_post_params_of_body (request expected_method : list N) :
  get_request_method request = Ok (VStr expected_method) →
  (find_sub BLANK_LINE request = None →
   get_request_post_params request expected_method = Ok (VDict ∅))
  ∧ (∀ i, find_sub BLANK_LINE request = Some i →
          drop (i + 4) request ≠ [] → LF ∉ drop (i + 4) request →
          get_request_post_params request expected_method
          = VDict <$> parse_query_string (VStr (drop (i + 4) request))).
Proof.
  intros Hm. unfold get_request_post_params. rewrite Hm. simpl.
  rewrite decide_False by (by intros H; apply H).
  rewrite get_request_body_find_body. split.
  - intros Hn. by rewrite find_body_no_separator.
  - intros i Hi Hne Hlf. by rewrite (find_body_single_line _ i).
Qed.

Lemma get_request_post_params_of_body_witness :
  get_request_post_params (lit "POST /form HTTP/1.0" ++ CRLF ++ lit "Host: h")
    default_expected_method = Ok (VDict ∅)
  ∧ get_request_post_params
      (lit "PUT /form HTTP/1.0" ++ BLANK_LINE ++ lit "a=1&b=2") (lit "PUT")
    = Ok (VDict {[ lit "a" := lit "1"; lit "b" := lit "2" ]}).
Proof.
  split.
  - apply (get_request_post_params_of_body _ _); by vm_compute.
  - etrans.
    + apply (proj2 (get_request_post_params_of_body
                      (lit "PUT /form HTTP/1.0" ++ BLANK_LINE
                         ++ lit "a=1&b=2") (lit "PUT") ltac:(by vm_compute))
               18%nat); [by vm_compute|discriminate|not_in_literal].
    + by vm_compute.
Defined.

(** ** Decoding well-formed escapes *)

Lemma N_forall_below (P : N → bool) (n : nat) :
  forallb P (N.of_nat <$> seq 0 n) = true →
  ∀ c, c < N.of_nat n → P c = true.
Proof.
  intros Hall c Hc. rewrite forallb_forall in Hall. apply Hall.
  apply list_elem_of_In, list_elem_of_fmap. exists (N.to_nat c).
  split; [by rewrite N2Nat.id|].
  apply list_elem_of_In, in_seq. lia.
Qed.

Lemma hex_digit_bounds c d :
  hex_digit c = Some d → c < 103 ∧ c ≠ PERCENT_CHAR ∧ (0 ≤ d < 16)%Z.
Proof.
  unfold hex_digit, in_range, PERCENT_CHAR.
  repeat case_match; try done; intros [= <-];
    repeat match goal with
    | H : _ && _ = true |- _ => apply andb_true_iff in H as [? ?]
    | H : (_ <=? _) = true |- _ => apply N.leb_le in H
    end; lia.
Qed.

Lemma py_int16_hex_pair h1 h2 d1 d2 :
  hex_digit h1 = Some d1 → hex_digit h2 = Some d2 →
  py_int16 [byte_of_N h1; byte_of_N h2] = Ok (16 * d1 + d2)%Z.
Proof.
  intros H1 H2.
  assert (Hall : forallb (λ a, forallb (hex_pair_ok a)
                                 (N.of_nat <$> seq 0 103))
                   (N.of_nat <$> seq 0 103) = true) by by vm_compute.
  pose proof (N_forall_below _ _ Hall h1) as Ha.
  destruct (hex_digit_bounds _ _ H1) as (Hb1 & _ & _).
  destruct (hex_digit_bounds _ _ H2) as (Hb2 & _ & _).
  pose proof (N_forall_below _ _ (Ha Hb1) h2 Hb2) as Hok.
  unfold hex_pair_ok in Hok. rewrite H1, H2 in Hok.
  by apply bool_decide_eq_true in Hok.
Qed.

Lemma ascii_escape_chars e :
  ascii_escape e →
  Forall (λ c, c < 128) (e.1.1 :: e.1.2 :: e.2)
  ∧ (PERCENT_CHAR ∉ e.1.1 :: e.1.2 :: e.2).
Proof.
  intros ((v & Hv & _) & Hseg & Hp). unfold hex_pair_value in Hv.
  destruct (hex_digit e.1.1) as [d1|] eqn:H1; [|done].
  destruct (hex_digit e.1.2) as [d2|] eqn:H2; [|done].
  destruct (hex_digit_bounds _ _ H1) as (? & ? & _).
  destruct (hex_digit_bounds _ _ H2) as (? & ? & _).
  split.
  - repeat constructor; [lia|lia|done].
  - rewrite !not_elem_of_cons. by repeat split.
Qed.

Lemma quoted_text_ascii seg0 escs :
  Forall (λ c, c < 128) seg0 → Forall ascii_escape escs →
  Forall (λ c, c < 128) (quoted_text seg0 escs).
Proof.
  intros H0 Hescs. unfold quoted_text. apply Forall_app. split; [done|].
  induction Hescs as [|e escs He _ IH]; simpl; [done|].
  destruct (ascii_escape_chars e He) as [Hc _].
  constructor; [done|]. rewrite app_comm_cons, app_comm_cons.
  apply Forall_app. split; [done|exact IH].
Qed.

(** The pieces between the percent signs of a text with escapes. *)
Lemma split_quoted_text seg0 escs :
  Forall (λ c, c < 128) seg0 → PERCENT_CHAR ∉ seg0 →
  Forall ascii_escape escs →
  split [PERCENT] (byte_of_N <$> quoted_text seg0 escs)
  = (byte_of_N <$> seg0)
    :: ((λ e, byte_of_N <$> (e.1.1 :: e.1.2 :: e.2)) <$> escs).
Proof.
  intros H0 Hp Hescs. revert seg0 H0 Hp. unfold quoted_text.
  induction Hescs as [|e escs He _ IH]; intros seg0 H0 Hp; simpl.
  - rewrite app_nil_r. apply split_single_no_sep.
    by apply percent_not_in_bytes.
  - destruct (ascii_escape_chars e He) as [Hc Hn].
    rewrite fmap_app, fmap_cons.
    change (byte_of_N PERCENT_CHAR) with PERCENT.
    rewrite split_single_app by by apply percent_not_in_bytes.
    f_equal. rewrite app_comm_cons, app_comm_cons. by apply IH.
Qed.

Lemma unquote_item_escape res e :
  ascii_escape e →
  unquote_item (byte_of_N <$> res) (byte_of_N <$> (e.1.1 :: e.1.2 :: e.2))
  = Ok (byte_of_N <$> (res ++ default 0 (hex_pair_value e.1.1 e.1.2) :: e.2)).
Proof.
  intros ((v & Hv & Hlt) & _ & _). unfold unquote_item.
  rewrite Hv. unfold hex_pair_value in Hv.
  destruct (hex_digit e.1.1) as [d1|] eqn:H1; [|done].
  destruct (hex_digit e.1.2) as [d2|] eqn:H2; [|done].
  simpl in Hv. injection Hv as <-.
  rewrite !fmap_cons. cbn [take drop].
  rewrite (py_int16_hex_pair _ _ d1 d2) by done. simpl.
  destruct (hex_digit_bounds _ _ H1) as (_ & _ & ?).
  destruct (hex_digit_bounds _ _ H2) as (_ & _ & ?).
  rewrite decide_True by lia. simpl.
  by rewrite fmap_app, fmap_cons, <- app_assoc.
Qed.

Lemma unquote_loop_escapes res escs :
  Forall ascii_escape escs →
  unquote_loop (byte_of_N <$> res)
    ((λ e, byte_of_N <$> (e.1.1 :: e.1.2 :: e.2)) <$> escs)
  = Ok (byte_of_N <$> decoded_text res escs).
Proof.
  intros Hescs. revert res. unfold decoded_text.
  induction Hescs as [|e escs He _ IH]; intros res.
  - simpl. by rewrite app_nil_r.
  - rewrite (fmap_cons (λ e0, byte_of_N <$> (e0.1.1 :: e0.1.2 :: e0.2))).
    cbn beta. cbn [unquote_loop].
    rewrite (unquote_item_escape res e He).
    change (Ok ?x ≫= ?f) with (f x). cbn beta. rewrite IH.
    by rewrite <- app_assoc.
Qed.

Lemma decoded_text_ascii seg0 escs :
  Forall (λ c, c < 128) seg0 → Forall ascii_escape escs →
  Forall (λ c, c < 128) (decoded_text seg0 escs).
Proof.
  intros H0 Hescs. unfold decoded_text. apply Forall_app. split; [done|].
  induction Hescs as [|e escs He _ IH]; simpl; [done|].
  destruct He as ((v & Hv & Hlt) & Hseg & _). rewrite Hv. simpl.
  constructor; [done|]. apply Forall_app. by split.
Qed.

(** X12: on ASCII text in which every percent sign is followed by two
    hexadecimal digits that stand for an ASCII character, [unquote]
    replaces every escape by its character and keeps the rest of the
    text, a plus sign included, as it is. *)
Theorem unquote_decodes_escapes (seg0 : list N) (escs : list (N * N * list N)) :
  Forall (λ c, c < 128) seg0 → PERCENT_CHAR ∉ seg0 →
  Forall ascii_escape escs →
  unquote (VStr (quoted_text seg0 escs)) = Ok (decoded_text seg0 escs).
Proof.
  intros H0 Hp Hescs. unfold unquote.
  destruct (truthy (VStr (quoted_text seg0 escs))) eqn:Ht; simpl.
  - rewrite utf8_encode_ascii by by apply quoted_text_ascii. simpl.
    rewrite split_quoted_text by done. simpl.
    destruct escs as [|e escs].
    + simpl. unfold quoted_text, decoded_text. simpl. rewrite app_nil_r.
      by apply utf8_decode_ascii.
    + rewrite decide_False by (simpl; lia).
      unfold item0. simpl nth. rewrite drop_0.
      change ((byte_of_N <$> (e.1.1 :: e.1.2 :: e.2))
              :: ((λ e0, byte_of_N <$> (e0.1.1 :: e0.1.2 :: e0.2)) <$> escs))
        with ((λ e0, byte_of_N <$> (e0.1.1 :: e0.1.2 :: e0.2))
                <$> (e :: escs)).
      rewrite unquote_loop_escapes by done. simpl.
      by apply utf8_decode_ascii, decoded_text_ascii.
  - simpl in Ht. apply negb_false_iff, bool_decide_eq_true in Ht.
    unfold quoted_text in Ht. apply app_eq_nil in Ht as [-> Hc].
    destruct escs as [|e escs]; [done|]. by simpl in Hc.
Qed.

Lemma unquote_decodes_escapes_witness :
  unquote (VStr (lit "a+b%20c%7e%41")) = Ok (lit "a+b c~A").
Proof.
  apply (unquote_decodes_escapes (lit "a+b")
           [(50, 48, lit "c"); (55, 101, []); (52, 49, [])]).
  - by repeat constructor.
  - not_in_literal.
  - repeat constructor; try (by eexists; split; [by vm_compute|]);
      try not_in_literal.
Defined.

(** ** The errors of the decoder *)

Lemma py_int16_raises b e : py_int16 b = Raise e → e = ValueError.
Proof.
  unfold py_int16.
  generalize (drop_spaces (Byte.to_N <$> b)). intros s0.
  match goal with
  | |- context [match ?X with (_, _) => _ end] => destruct X as [sign s1]
  end.
  match goal with
  | |- context [scan_digits 0 0 ?M] => generalize M
  end.
  intros s2.
  repeat case_match; congruence.
Qed.

Lemma utf8_encode_raises s e : utf8_encode s = Raise e → e = UnicodeEncodeError.
Proof.
  induction s as [|c s IH]; simpl; [done|].
  destruct (utf8_encode_char c) as [bs|e'] eqn:Hc; simpl.
  - destruct (utf8_encode s) as [bs'|e']; simpl; [done|].
    intros [= <-]. by apply IH.
  - intros [= <-]. unfold utf8_encode_char in Hc.
    repeat case_match; congruence.
Qed.

Lemma fmap_result_raises {A B} (f : A → B) (r : result A) e :
  f <$> r = Raise e → r = Raise e.
Proof. destruct r; simpl; [done|]. by intros [= ->]. Qed.

Lemma utf8_decode_raises b e : utf8_decode b = Raise e → e = UnicodeDecodeError.
Proof.
  remember (length b) as n eqn:Hn. revert b Hn.
  induction n as [n IH] using lt_wf_ind. intros b Hn.
  destruct b as [|b0 bs1]; [done|]. simpl.
  repeat case_match; try congruence;
    intros Hr%fmap_result_raises;
    (eapply IH; [|reflexivity|exact Hr]); subst; simpl; lia.
Qed.

(** The [try] of the decoding loop never reaches its handler: what it
    guards raises [ValueError] only. *)
Lemma unquote_item_no_handler res item :
  unquote_item res item
  = (v ← py_int16 (take 2 item);
     res1 ← bytearray_append res (AInt v);
     Ok (res1 ++ drop 2 item)).
Proof.
  unfold unquote_item, try_except.
  destruct (py_int16 (take 2 item)) as [v|e] eqn:Hv; simpl.
  - unfold bytearray_append. by case_decide.
  - apply py_int16_raises in Hv as ->. by rewrite decide_False.
Qed.

Lemma unquote_item_raises res item e :
  unquote_item res item = Raise e → e = ValueError.
Proof.
  rewrite unquote_item_no_handler.
  destruct (py_int16 (take 2 item)) as [v|e'] eqn:Hv; simpl.
  - unfold bytearray_append. case_decide; simpl; congruence.
  - intros [= <-]. by apply py_int16_raises in Hv.
Qed.

Lemma unquote_loop_raises res items e :
  unquote_loop res items = Raise e → e = ValueError.
Proof.
  revert res. induction items as [|item items IH]; intros res; simpl; [done|].
  destruct (unquote_item res item) as [res'|e'] eqn:Hi; simpl.
  - apply IH.
  - intros [= <-]. by apply unquote_item_raises in Hi.
Qed.

(** X14: on a [str], [unquote] raises nothing but [ValueError] (a malformed
    escape), [UnicodeEncodeError] (a lone surrogate in the input) or
    [UnicodeDecodeError] (the decoded bytes are not UTF-8): the fallback
    of the [except KeyError] branch never runs, and neither [KeyError]
    nor [TypeError] comes out. *)
Theorem unquote_errors (s : list N) (e : exn) :
  unquote (VStr s) = Raise e →
  e = ValueError ∨ e = UnicodeEncodeError ∨ e = UnicodeDecodeError.
Proof.
  unfold unquote. destruct (negb (truthy (VStr s))); [done|].
  destruct (utf8_encode s) as [b|e'] eqn:He; simpl.
  - case_decide.
    + intros ->%utf8_decode_raises. auto.
    + destruct (unquote_loop _ _) as [res|e'] eqn:Hl; simpl.
      * intros ->%utf8_decode_raises. auto.
      * intros [= <-]. apply unquote_loop_raises in Hl. auto.
  - intros [= <-]. apply utf8_encode_raises in He. auto.
Qed.

Lemma unquote_errors_witness :
  ValueError = ValueError ∨ ValueError = UnicodeEncodeError
  ∨ ValueError = UnicodeDecodeError.
Proof. apply (unquote_errors (lit "%zz")). by vm_compute. Defined.

(** ** More on the response formatter *)

(** X15: like [send_response], [send_binary_response] raises [TypeError] on a
    status code that is not in the table before it calls the transport:
    whatever the transport, its state is unchanged. *)
Theorem send_binary_response_unknown_code {T : Type} `{!Transport T}
    response file_size http_code content_type extend_headers (t : T) :
  HTTP_CODES !! http_code = None →
  send_binary_response response file_size http_code content_type
    extend_headers t
  = (Raise TypeError, t).
Proof.
  intros Hc. unfold send_binary_response.
  rewrite (status_line_unknown _ Hc). reflexivity.
Qed.

Lemma send_binary_response_unknown_code_witness :
  send_binary_response (blit "abc") 3 600 default_binary_content_type None
    [Send CRLF]
  = (Raise TypeError, [Send CRLF]).
Proof.
  apply (send_binary_response_unknown_code (T := list event)). reflexivity.
Defined.

(** X16: with a status code of the table, [send_response] writes the status
    line, the content type, every extra header followed by a line end
    and in the order supplied, the blank line and the body: that is
    four writes plus one per extra header, none of them binary. *)
Theorem send_response_trace response http_code reason content_type
    extend_headers (log : list event) :
  HTTP_CODES !! http_code = Some reason →
  ∃ written,
    send_response response http_code content_type extend_headers log
    = (Ok (), log ++ written)
    ∧ written
      = Send (lit "HTTP/1.0 " ++ py_str_int http_code ++ lit " "
                ++ reason ++ CRLF)
        :: Send (lit "Content-Type:" ++ content_type ++ CRLF)
        :: ((λ header, Send (header ++ CRLF)) <$> default [] extend_headers)
        ++ [Send CRLF; Send response]
    ∧ length written = (4 + length (default [] extend_headers))%nat
    ∧ (∀ data, SendBinary data ∉ written).
Proof.
  intros Hc. eexists. split; [by apply send_response_recorder|].
  assert (Hh : header_events extend_headers
               = (λ header, Send (header ++ CRLF))
                   <$> default [] extend_headers) by by destruct extend_headers.
  rewrite Hh. split; [done|]. split.
  - simpl. rewrite length_app, length_fmap. simpl. lia.
  - intros data. simpl. rewrite !not_elem_of_cons, not_elem_of_app.
    split; [done|]. split; [done|]. split.
    + intros (h & [=] & _)%list_elem_of_fmap.
    + rewrite !not_elem_of_cons. split; [done|]. split; [done|].
      apply not_elem_of_nil.
Qed.

Lemma send_response_trace_witness :
  (send_response (lit "{}") 201 (lit "application/json")
     (Some [lit "Location: /x"; lit "X-A: 1"]) []).2
  = [Send (lit "HTTP/1.0 201 Created" ++ CRLF);
     Send (lit "Content-Type:application/json" ++ CRLF);
     Send (lit "Location: /x" ++ CRLF);
     Send (lit "X-A: 1" ++ CRLF);
     Send CRLF;
     Send (lit "{}")].
Proof.
  destruct (send_response_trace (lit "{}") 201 (lit "Created")
              (lit "application/json")
              (Some [lit "Location: /x"; lit "X-A: 1"]) [] eq_refl)
    as (written & -> & -> & _).
  reflexivity.
Defined.

(** X17: every entry of the status table has a three-digit code between 100
    and 511 and a non-empty reason phrase without carriage return or
    line feed, so that the status line built for it is the single line
    [HTTP/1.0 code reason]. *)
Theorem status_line_well_formed (http_code : Z) (reason : list N) :
  HTTP_CODES !! http_code = Some reason →
  (100 ≤ http_code ≤ 511)%Z
  ∧ length (py_str_int http_code) = 3%nat
  ∧ reason ≠ [] ∧ (CR ∉ reason) ∧ (LF ∉ reason)
  ∧ status_line http_code
    = Ok (lit "HTTP/1.0 " ++ py_str_int http_code ++ lit " "
            ++ reason ++ CRLF).
Proof.
  intros Hc. pose proof (status_line_known _ _ Hc) as Hline.
  unfold HTTP_CODES in Hc. apply elem_of_list_to_map_2 in Hc.
  match type of Hc with
  | _ ∈ ?L => assert (Hall : forallb status_entry_ok L = true) by by vm_compute
  end.
  rewrite forallb_forall in Hall.
  apply list_elem_of_In, Hall in Hc. unfold status_entry_ok in Hc.
  simpl in Hc. rewrite !andb_true_iff in Hc.
  destruct Hc as ((((H1 & H2) & H3) & H4) & H5).
  apply Z.leb_le in H1, H2. apply Nat.eqb_eq in H3.
  apply negb_true_iff, Nat.eqb_neq in H4.
  rewrite forallb_forall in H5.
  split; [lia|]. split; [done|]. split; [by destruct reason|].
  split; [|split; [|done]].
  - intros Hin%list_elem_of_In%H5. by rewrite N.eqb_refl in Hin.
  - intros Hin%list_elem_of_In%H5. rewrite N.eqb_refl in Hin.
    by rewrite andb_false_r in Hin.
Qed.

Lemma status_line_well_formed_witness :
  status_line 418 = Ok (lit "HTTP/1.0 418 I am a teapot" ++ CRLF).
Proof.
  destruct (status_line_well_formed 418 (lit "I am a teapot") eq_refl)
    as (_ & _ & _ & _ & _ & ->).
  reflexivity.
Defined.

(** ** Errors of the request line across the accessors *)

(** X11: a request that does not start with an upper-case letter has no
    method: [get_request_post_params] raises the [AttributeError] of
    [get_request_method], whatever method is expected. *)
Theorem get_request_post_params_no_method (request expected_method : list N) :
  take_while cls_upper request = [] →
  get_request_post_params request expected_method = Raise AttributeError.
Proof.
  intros Hrun. unfold get_request_post_params, get_request_method.
  rewrite search_group_re_method, take_while_first_line by done.
  by rewrite Hrun.
Qed.

Lemma get_request_post_params_no_method_witness :
  get_request_post_params (lit "post / HTTP/1.0" ++ BLANK_LINE ++ lit "a=1")
    default_expected_method
  = Raise AttributeError.
Proof. apply get_request_post_params_no_method. reflexivity. Defined.

(** ** Witnesses of the behaviour behind C2 and C3 *)

Lemma unquote_first_escape_malformed_witness :
  unquote (VBytes (blit "a%zz%41")) = Raise ValueError.
Proof.
  apply (unquote_first_escape_malformed (blit "a") (blit "zz%41")).
  - not_in_literal.
  - by vm_compute.
Defined.

Lemma get_request_body_first_line_witness :
  get_request_body request_two_line_body = VStr (lit "a=1" ++ [CR]).
Proof.
  apply (get_request_body_first_line request_two_line_body 15
           (lit "a=1" ++ [CR]) (lit "b=2")).
  - reflexivity.
  - reflexivity.
  - discriminate.
  - not_in_literal.
Defined.
